(** * Folio: the index synchronizer and the front-matter validator

    A shallow embedding of [src/src/utils/indexing.ts] ([updateIndexFile] and
    its renderers) and of the validation part of [src/src/commands/status.ts]
    ([buildZodSchema], [validateDocType]), together with the behaviour of the
    Zod v3 validators these functions build.

    Modelling choices:
    - a JavaScript string is a list of characters ([list ascii]); the
      characters of the model are the 8-bit ones;
    - a JavaScript number is an integer ([Z]); NaN is [None] where it arises;
    - a parsed front-matter object is an association list, looked up by its
      own keys (first binding wins);
    - a file that cannot be read or whose front matter cannot be parsed is a
      [None] front matter;
    - [Array.prototype.sort] is V8's TimSort, as Node runs it;
    - the identity of an array built by a validator is an allocation site:
      the name of the file whose parse built it and a counter local to that
      parse, so two parses never share an array. *)

From Stdlib Require Import List String Ascii ZArith NArith Bool Lia Permutation Sorted.
Import ListNotations.
Open Scope list_scope.
Set Warnings "-register-all".

(** ** JavaScript strings *)

Definition jsstr := list ascii.

(** A string literal of the source. *)
Definition lit (s : string) : jsstr := list_ascii_of_string s.

Fixpoint join (sep : jsstr) (l : list jsstr) : jsstr :=
  match l with
  | [] => []
  | [x] => x
  | x :: l' => x ++ sep ++ join sep l'
  end.

Fixpoint str_eqb (a b : jsstr) : bool :=
  match a, b with
  | [], [] => true
  | c :: a', d :: b' => Ascii.eqb c d && str_eqb a' b'
  | _, _ => false
  end.

(** [s.startsWith(p)] *)
Fixpoint starts_with (p s : jsstr) : bool :=
  match p, s with
  | [], _ => true
  | c :: p', d :: s' => Ascii.eqb c d && starts_with p' s'
  | _ :: _, [] => false
  end.

(** [s.endsWith(p)] *)
Definition ends_with (p s : jsstr) : bool := starts_with (rev p) (rev s).

(** [s.indexOf(p)]: the first position at which [p] occurs, [None] for -1. *)
Fixpoint indexOf (p s : jsstr) : option nat :=
  if starts_with p s then Some 0
  else match s with
       | [] => None
       | _ :: s' => option_map S (indexOf p s')
       end.

(** [s.substring(0, n)] and [s.substring(n)] for [n <= s.length]. *)
(** The line feed ["\n"]. *)
Definition nl : jsstr := [ascii_of_nat 10].

Definition substring_to (n : nat) (s : jsstr) : jsstr := firstn n s.
Definition substring_from (n : nat) (s : jsstr) : jsstr := skipn n s.

(** WhiteSpace and LineTerminator code points of ECMAScript among the 8-bit
    characters: TAB, LF, VT, FF, CR, SPACE and NO-BREAK SPACE. *)
Definition is_js_ws (c : ascii) : bool :=
  let n := nat_of_ascii c in
  (9 <=? n) && (n <=? 13) || (n =? 32) || (n =? 160).

Fixpoint trim_start (s : jsstr) : jsstr :=
  match s with
  | [] => []
  | c :: s' => if is_js_ws c then trim_start s' else s
  end.

Definition trim_end (s : jsstr) : jsstr := rev (trim_start (rev s)).

(** [s.trim()] *)
Definition js_trim (s : jsstr) : jsstr := trim_end (trim_start s).

(** Character classes of regular expressions and [toUpperCase]. *)
Definition is_digit (c : ascii) : bool :=
  let n := nat_of_ascii c in (48 <=? n) && (n <=? 57).
Definition is_lower (c : ascii) : bool :=
  let n := nat_of_ascii c in (97 <=? n) && (n <=? 122).
Definition is_upper (c : ascii) : bool :=
  let n := nat_of_ascii c in (65 <=? n) && (n <=? 90).
Definition is_word (c : ascii) : bool :=
  is_digit c || is_lower c || is_upper c || Ascii.eqb c "_"%char.
Definition to_upper (c : ascii) : ascii :=
  if is_lower c then ascii_of_nat (nat_of_ascii c - 32) else c.

(** ** JavaScript values of parsed front matter *)

Inductive jsval : Type :=
| JNull
| JBool (b : bool)
| JNum (z : Z)
| JStr (s : jsstr)
| JArr (l : list jsval)
| JObj (fields : list (jsstr * jsval)).

(** A parsed front-matter object; a missing key reads as [undefined]. *)
Definition FM := list (jsstr * jsval).

Fixpoint fm_get (k : jsstr) (fm : FM) : option jsval :=
  match fm with
  | [] => None
  | (k', v) :: fm' => if str_eqb k k' then Some v else fm_get k fm'
  end.

(** Truthiness of a possibly undefined value. *)
Definition truthy (v : option jsval) : bool :=
  match v with
  | None | Some JNull => false
  | Some (JBool b) => b
  | Some (JNum z) => negb (Z.eqb z 0)
  | Some (JStr s) => match s with [] => false | _ => true end
  | Some (JArr _) | Some (JObj _) => true
  end.

(** Decimal rendering of integers ([Number.prototype.toString]). It is the
    rendering of a number for the safe integers (absolute value at most
    [2^53]): above them a double is rounded to a multiple of a power of two
    and printed with its shortest round-trip digits, and from [1e21] on in
    exponent form, neither of which is modelled here. *)
Definition digit_char (n : N) : ascii := ascii_of_N (48 + n).

Fixpoint n_dec_aux (fuel : nat) (n : N) (acc : jsstr) : jsstr :=
  match fuel with
  | O => acc
  | S f =>
      let acc' := digit_char (N.modulo n 10) :: acc in
      if N.eqb (N.div n 10) 0 then acc' else n_dec_aux f (N.div n 10) acc'
  end.

Definition n_dec (n : N) : jsstr := n_dec_aux (S (N.to_nat (N.size n))) n [].

Definition z_dec (z : Z) : jsstr :=
  match z with
  | Zneg p => "-"%char :: n_dec (Npos p)
  | _ => n_dec (Z.to_N z)
  end.

(** [String(v)]; inside an array, [null] becomes the empty string. *)
Fixpoint js_to_string (v : jsval) : jsstr :=
  match v with
  | JNull => lit "null"
  | JBool true => lit "true"
  | JBool false => lit "false"
  | JNum z => z_dec z
  | JStr s => s
  | JArr l =>
      (fix go (l : list jsval) : jsstr :=
         match l with
         | [] => []
         | [x] => match x with JNull => [] | _ => js_to_string x end
         | x :: l' =>
             (match x with JNull => [] | _ => js_to_string x end)
               ++ lit "," ++ go l'
         end) l
  | JObj _ => lit "[object Object]"
  end.

(** ** The relational comparison [a > b] *)

Inductive jsprim : Type :=
| PrimNull | PrimBool (b : bool) | PrimNum (z : Z) | PrimStr (s : jsstr).

(** [ToPrimitive] with the number hint: arrays and objects become strings. *)
Definition to_primitive (v : jsval) : jsprim :=
  match v with
  | JNull => PrimNull
  | JBool b => PrimBool b
  | JNum z => PrimNum z
  | JStr s => PrimStr s
  | JArr _ | JObj _ => PrimStr (js_to_string v)
  end.

Fixpoint digits_value (s : jsstr) (acc : Z) : option Z :=
  match s with
  | [] => Some acc
  | c :: s' =>
      if is_digit c
      then digits_value s' (acc * 10 + Z.of_nat (nat_of_ascii c - 48))
      else None
  end.

(** [ToNumber] of a string: after trimming, the empty string is 0 and a
    signed decimal integer literal is its value; any other text is NaN
    ([None]); fractional and hexadecimal literals are outside the model. *)
Definition string_to_number (s : jsstr) : option Z :=
  match js_trim s with
  | [] => Some 0%Z
  | c :: rest =>
      if Ascii.eqb c "-"%char then
        match rest with [] => None | _ => option_map Z.opp (digits_value rest 0) end
      else if Ascii.eqb c "+"%char then
        match rest with [] => None | _ => digits_value rest 0 end
      else digits_value (c :: rest) 0
  end.

Definition to_number (p : jsprim) : option Z :=
  match p with
  | PrimNull => Some 0%Z
  | PrimBool b => Some (if b then 1%Z else 0%Z)
  | PrimNum z => Some z
  | PrimStr s => string_to_number s
  end.

(** Code-unit order of strings. *)
Fixpoint str_ltb (a b : jsstr) : bool :=
  match a, b with
  | _, [] => false
  | [], _ :: _ => true
  | c :: a', d :: b' =>
      if Nat.ltb (nat_of_ascii c) (nat_of_ascii d) then true
      else if Nat.ltb (nat_of_ascii d) (nat_of_ascii c) then false
      else str_ltb a' b'
  end.

(** [a > b] on two defined values (IsLessThan(b, a)). *)
Definition js_gt_val (a b : jsval) : bool :=
  match to_primitive a, to_primitive b with
  | PrimStr x, PrimStr y => str_ltb y x
  | pa, pb =>
      match to_number pa, to_number pb with
      | Some x, Some y => Z.gtb x y
      | _, _ => false
      end
  end.

(** [a > b] where an operand may be [undefined] (which is NaN). *)
Definition js_gt (a b : option jsval) : bool :=
  match a, b with
  | Some x, Some y => js_gt_val x y
  | _, _ => false
  end.

(** ** [encodeURI] *)

Definition hex_digit (n : nat) : ascii :=
  if n <? 10 then ascii_of_nat (48 + n) else ascii_of_nat (55 + n).

Definition pct (n : nat) : jsstr :=
  ["%"%char; hex_digit (n / 16); hex_digit (n mod 16)].

Definition uri_unescaped (c : ascii) : bool :=
  is_digit c || is_lower c || is_upper c
  || existsb (Ascii.eqb c) (lit ";,/?:@&=+$-_.!~*'()#").

(** Code points from 128 to 255 take two UTF-8 bytes. *)
Definition encode_char (c : ascii) : jsstr :=
  let n := nat_of_ascii c in
  if uri_unescaped c then [c]
  else if n <? 128 then pct n
  else pct (192 + n / 64) ++ pct (128 + n mod 64).

Definition encodeURI (s : jsstr) : jsstr := flat_map encode_char s.

(** ** The renderers of [indexing.ts] *)

Record DocumentIndexInfo := {
  filename : jsstr;
  frontmatter : FM
}.

Definition nullish_or (v : option jsval) (d : jsval) : jsval :=
  match v with
  | None | Some JNull => d
  | Some x => x
  end.

Definition generateMarkdownTable
  (documents : list DocumentIndexInfo) (columns : list jsstr) : jsstr :=
  let linkColumn :=
    if existsb (str_eqb (lit "title")) columns then Some (lit "title")
    else hd_error columns in
  let header := lit "| " ++ join (lit " | ") columns ++ lit " |" in
  let separator :=
    lit "| " ++ join (lit " | ") (map (fun _ => lit "---") columns) ++ lit " |" in
  let rows :=
    map (fun doc =>
      let rowData :=
        map (fun col =>
          let value := nullish_or (fm_get col doc.(frontmatter)) (JStr (lit "N/A")) in
          match linkColumn with
          | Some lc =>
              if str_eqb col lc
              then lit "[" ++ js_to_string value ++ lit "](" ++
                   encodeURI doc.(filename) ++ lit ")"
              else js_to_string value
          | None => js_to_string value
          end) columns in
      lit "| " ++ join (lit " | ") rowData ++ lit " |") documents in
  join nl (header :: separator :: rows).

Definition generateMarkdownList (documents : list DocumentIndexInfo) : jsstr :=
  let listItems :=
    map (fun doc =>
      let title := nullish_or (fm_get (lit "title") doc.(frontmatter))
                              (JStr doc.(filename)) in
      let st := fm_get (lit "status") doc.(frontmatter) in
      let status :=
        if truthy st then lit " (Status: " ++ js_to_string (nullish_or st JNull) ++ lit ")"
        else [] in
      lit "- [" ++ js_to_string title ++ lit "](" ++ encodeURI doc.(filename)
        ++ lit ")" ++ status) documents in
  join nl listItems.

(** ** [updateIndexFile] *)

Definition START_MARKER : jsstr := lit "<!-- FOLIO:INDEX:START -->".
Definition END_MARKER : jsstr := lit "<!-- FOLIO:INDEX:END -->".

Inductive IndexFormat := FormatTable | FormatList.

(** The [indexing] part of the global configuration. *)
Record IndexingConfig := {
  format : option IndexFormat;
  columns : list jsstr
}.

(** What reading [index.md] gives: its content, ENOENT, or another error. *)
Inductive IndexFile :=
| IndexPresent (content : jsstr)
| IndexMissing
| IndexUnreadable.

(** The directory listing of the type directory, in [readdir] order, each
    name with the front matter [matter] parses from it ([None] when reading
    or parsing fails); a failing [readdir] is the empty listing. *)
Definition Listing := list (jsstr * option FM).

Definition is_doc_file (file : jsstr) : bool :=
  (ends_with (lit ".md") file || ends_with (lit ".mdx") file)
  && negb (str_eqb file (lit "index.md")).

(** [Promise.all] over the reads: one failed read rejects the whole. *)
Fixpoint read_all (l : Listing) : option (list DocumentIndexInfo) :=
  match l with
  | [] => Some []
  | (f, None) :: _ => None
  | (f, Some fm) :: l' =>
      match read_all l' with
      | Some ds => Some ({| filename := f; frontmatter := fm |} :: ds)
      | None => None
      end
  end.

Definition doc_id (d : DocumentIndexInfo) : option jsval :=
  fm_get (lit "id") d.(frontmatter).

(** The comparator [(a, b) => (a.frontmatter.id > b.frontmatter.id ? 1 : -1)]. *)
Definition id_compare (a b : DocumentIndexInfo) : Z :=
  if js_gt (doc_id a) (doc_id b) then 1%Z else (-1)%Z.

(** [Array.prototype.sort] with a comparator: V8's TimSort
    ([third_party/v8/builtins/array-sort.tq]), over the work array the
    elements are copied into. Indices are [Smi]s ([Z]); every loop is bounded
    by the length of the array (each of its rounds moves an element, shrinks
    an interval or pops a run), which the [fuel] arguments provide. [Copy]
    has the semantics of V8's [Copy], a [memmove]: the source is read as it
    was before the copy. [hole] fills the temporary array and is never read;
    a comparison result is used as [Compare] returns it (the comparator of
    [indexing.ts] returns [1] or [-1], never NaN). *)
Section TimSort.
Variable A : Type.
Variable Compare : A -> A -> Z.
Variable hole : A.
Local Open Scope Z_scope.

Definition fa_get (a : list A) (i : Z) : A := nth (Z.to_nat i) a hole.

Fixpoint fa_set_nat (a : list A) (i : nat) (v : A) : list A :=
  match a, i with
  | [], _ => []
  | _ :: a', O => v :: a'
  | x :: a', S i' => x :: fa_set_nat a' i' v
  end.

Definition fa_set (a : list A) (i : Z) (v : A) : list A := fa_set_nat a (Z.to_nat i) v.

Definition Copy (source : list A) (srcPos : Z) (target : list A) (dstPos length : Z) : list A :=
  fold_left (fun t k => fa_set t (dstPos + Z.of_nat k) (fa_get source (srcPos + Z.of_nat k)))
    (seq 0 (Z.to_nat length)) target.

Fixpoint cmrl_loop (fuel : nat) (n r : Z) : Z :=
  match fuel with
  | O => n + r
  | S f => if 64 <=? n then cmrl_loop f (Z.shiftr n 1) (Z.lor r (Z.land n 1)) else n + r
  end.

Definition ComputeMinRunLength (n : Z) : Z := cmrl_loop (Z.to_nat n) n 0.

Fixpoint reverse_loop (fuel : nat) (a : list A) (low high : Z) : list A :=
  match fuel with
  | O => a
  | S f =>
      if low <? high then
        let elementLow := fa_get a low in
        let elementHigh := fa_get a high in
        reverse_loop f (fa_set (fa_set a low elementHigh) high elementLow) (low + 1) (high - 1)
      else a
  end.

Definition ReverseRange (a : list A) (from to : Z) : list A :=
  reverse_loop (List.length a) a from (to - 1).

Fixpoint run_loop (fuel : nat) (a : list A) (isDescending : bool) (previousElement : A)
  (idx high runLength : Z) : Z :=
  match fuel with
  | O => runLength
  | S f =>
      if idx <? high then
        let currentElement := fa_get a idx in
        let order := Compare currentElement previousElement in
        if (if isDescending then 0 <=? order else order <? 0) then runLength
        else run_loop f a isDescending currentElement (idx + 1) high (runLength + 1)
      else runLength
  end.

Definition CountAndMakeRun (a : list A) (lowArg high : Z) : list A * Z :=
  let low := lowArg + 1 in
  if low =? high then (a, 1) else
  let elementLow := fa_get a low in
  let elementLowPre := fa_get a (low - 1) in
  let order := Compare elementLow elementLowPre in
  let isDescending := order <? 0 in
  let runLength := run_loop (List.length a) a isDescending elementLow (low + 1) high 2 in
  (if isDescending then ReverseRange a lowArg (lowArg + runLength) else a, runLength).

Fixpoint bis_search (fuel : nat) (a : list A) (pivot : A) (left right : Z) : Z :=
  match fuel with
  | O => left
  | S f =>
      if left <? right then
        let mid := left + Z.shiftr (right - left) 1 in
        if Compare pivot (fa_get a mid) <? 0 then bis_search f a pivot left mid
        else bis_search f a pivot (mid + 1) right
      else left
  end.

Fixpoint bis_shift (fuel : nat) (a : list A) (p left : Z) : list A :=
  match fuel with
  | O => a
  | S f => if left <? p then bis_shift f (fa_set a p (fa_get a (p - 1))) (p - 1) left else a
  end.

Fixpoint bis_loop (fuel : nat) (a : list A) (low start high : Z) : list A :=
  match fuel with
  | O => a
  | S f =>
      if start <? high then
        let pivot := fa_get a start in
        let left := bis_search (List.length a) a pivot low start in
        let a := fa_set (bis_shift (List.length a) a start left) left pivot in
        bis_loop f a low (start + 1) high
      else a
  end.

Definition BinaryInsertionSort (a : list A) (low startArg high : Z) : list A :=
  bis_loop (List.length a) a low (if low =? startArg then startArg + 1 else startArg) high.

(** The galloping phase of [GallopLeft] and [GallopRight]: [offset] grows as
    [2 * offset + 1] while [cont] holds for the element at [pos offset]. *)
Fixpoint gallop_loop (fuel : nat) (cont : A -> bool) (array : list A) (pos : Z -> Z)
  (maxOfs lastOfs offset : Z) : Z * Z :=
  match fuel with
  | O => (lastOfs, offset)
  | S f =>
      if offset <? maxOfs then
        if cont (fa_get array (pos offset))
        then gallop_loop f cont array pos maxOfs offset (Z.shiftl offset 1 + 1)
        else (lastOfs, offset)
      else (lastOfs, offset)
  end.

(** The closing binary search: [goes_right] tells that the key belongs to the
    right of [a[base + m]]. *)
Fixpoint gallop_search (fuel : nat) (goes_right : A -> bool) (array : list A)
  (base lastOfs offset : Z) : Z :=
  match fuel with
  | O => offset
  | S f =>
      if lastOfs <? offset then
        let m := lastOfs + Z.shiftr (offset - lastOfs) 1 in
        if goes_right (fa_get array (base + m))
        then gallop_search f goes_right array base (m + 1) offset
        else gallop_search f goes_right array base lastOfs m
      else offset
  end.

Definition GallopLeft (array : list A) (key : A) (base length hint : Z) : Z :=
  let fuel := List.length array in
  let order := Compare (fa_get array (base + hint)) key in
  let '(lastOfs, offset) :=
    if order <? 0 then
      let maxOfs := length - hint in
      let '(lastOfs, offset) :=
        gallop_loop fuel (fun x => Compare x key <? 0) array (fun o => base + hint + o)
          maxOfs 0 1 in
      let offset := if maxOfs <? offset then maxOfs else offset in
      (lastOfs + hint, offset + hint)
    else
      let maxOfs := hint + 1 in
      let '(lastOfs, offset) :=
        gallop_loop fuel (fun x => 0 <=? Compare x key) array (fun o => base + hint - o)
          maxOfs 0 1 in
      let offset := if maxOfs <? offset then maxOfs else offset in
      (hint - offset, hint - lastOfs) in
  gallop_search fuel (fun x => Compare x key <? 0) array base (lastOfs + 1) offset.

Definition GallopRight (array : list A) (key : A) (base length hint : Z) : Z :=
  let fuel := List.length array in
  let order := Compare key (fa_get array (base + hint)) in
  let '(lastOfs, offset) :=
    if order <? 0 then
      let maxOfs := hint + 1 in
      let '(lastOfs, offset) :=
        gallop_loop fuel (fun x => Compare key x <? 0) array (fun o => base + hint - o)
          maxOfs 0 1 in
      let offset := if maxOfs <? offset then maxOfs else offset in
      (hint - offset, hint - lastOfs)
    else
      let maxOfs := length - hint in
      let '(lastOfs, offset) :=
        gallop_loop fuel (fun x => 0 <=? Compare key x) array (fun o => base + hint + o)
          maxOfs 0 1 in
      let offset := if maxOfs <? offset then maxOfs else offset in
      (lastOfs + hint, offset + hint) in
  gallop_search fuel (fun x => 0 <=? Compare key x) array base (lastOfs + 1) offset.

Definition kMinGallopWins : Z := 7.

(** The local variables of [MergeLow] and [MergeHigh]: [cursorW] is
    [cursorB] in the first and [cursorA] in the second; [stored] is
    [sortState.minGallop]. *)
Record MergeVars := mkMV {
  workArray : list A; tempArray : list A;
  lengthA : Z; lengthB : Z; dest : Z; cursorTemp : Z; cursorW : Z;
  nofWinsA : Z; nofWinsB : Z; minGallop : Z; stored : Z }.

(** How a loop of a merge ends: a [goto] to [Succeed] ([GotoSucceed]), to
    [CopyB] (in [MergeLow]) or [CopyA] (in [MergeHigh]) ([GotoCopy]), or
    leaving the loop ([LoopBreak]). *)
Inductive LoopExit := GotoSucceed | GotoCopy | LoopBreak.

Fixpoint low_pairs (fuel : nat) (v : MergeVars) : LoopExit * MergeVars :=
  match fuel with
  | O => (GotoSucceed, v)
  | S f =>
      let '(mkMV w t la lb d ct cb wa wb mg smg) := v in
      if Compare (fa_get w cb) (fa_get t ct) <? 0 then
        let v' := mkMV (fa_set w d (fa_get w cb)) t la (lb - 1) (d + 1) ct (cb + 1)
                       0 (wb + 1) mg smg in
        if lb - 1 =? 0 then (GotoSucceed, v')
        else if mg <=? wb + 1 then (LoopBreak, v') else low_pairs f v'
      else
        let v' := mkMV (fa_set w d (fa_get t ct)) t (la - 1) lb (d + 1) (ct + 1) cb
                       (wa + 1) 0 mg smg in
        if la - 1 =? 1 then (GotoCopy, v')
        else if mg <=? wa + 1 then (LoopBreak, v') else low_pairs f v'
  end.

Fixpoint low_gallop (fuel : nat) (firstIteration : bool) (v : MergeVars)
  : LoopExit * MergeVars :=
  match fuel with
  | O => (GotoSucceed, v)
  | S f =>
      let '(mkMV w t la lb d ct cb wa wb mg smg) := v in
      if (kMinGallopWins <=? wa) || (kMinGallopWins <=? wb) || firstIteration then
        let mg := Z.max 1 (mg - 1) in
        let smg := mg in
        let wa := GallopRight t (fa_get w cb) ct la 0 in
        let '(w, d, ct, la) :=
          if 0 <? wa then (Copy t ct w d wa, d + wa, ct + wa, la - wa) else (w, d, ct, la) in
        if (0 <? wa) && (la =? 1) then (GotoCopy, mkMV w t la lb d ct cb wa wb mg smg)
        else if (0 <? wa) && (la =? 0) then (GotoSucceed, mkMV w t la lb d ct cb wa wb mg smg)
        else
        let w := fa_set w d (fa_get w cb) in
        let d := d + 1 in
        let cb := cb + 1 in
        let lb := lb - 1 in
        if lb =? 0 then (GotoSucceed, mkMV w t la lb d ct cb wa wb mg smg) else
        let wb := GallopLeft w (fa_get t ct) cb lb 0 in
        let '(w, d, cb, lb) :=
          if 0 <? wb then (Copy w cb w d wb, d + wb, cb + wb, lb - wb) else (w, d, cb, lb) in
        if (0 <? wb) && (lb =? 0) then (GotoSucceed, mkMV w t la lb d ct cb wa wb mg smg)
        else
        let w := fa_set w d (fa_get t ct) in
        let d := d + 1 in
        let ct := ct + 1 in
        let la := la - 1 in
        if la =? 1 then (GotoCopy, mkMV w t la lb d ct cb wa wb mg smg)
        else low_gallop f false (mkMV w t la lb d ct cb wa wb mg smg)
      else (LoopBreak, v)
  end.

Definition reset_wins (v : MergeVars) : MergeVars :=
  let '(mkMV w t la lb d ct cw _ _ mg smg) := v in mkMV w t la lb d ct cw 0 0 mg smg.

Definition bump_min_gallop (store : bool) (v : MergeVars) : MergeVars :=
  let '(mkMV w t la lb d ct cw wa wb mg smg) := v in
  mkMV w t la lb d ct cw wa wb (mg + 1) (if store then mg + 1 else smg).

(** [while (true) { straightforward; ++minGallop; galloping; ++minGallop;
    sortState.minGallop = minGallop; }], for both merges. *)
Fixpoint merge_rounds (fuel : nat) (pairs : MergeVars -> LoopExit * MergeVars)
  (gallop : MergeVars -> LoopExit * MergeVars) (v : MergeVars) : LoopExit * MergeVars :=
  match fuel with
  | O => (GotoSucceed, v)
  | S f =>
      match pairs (reset_wins v) with
      | (LoopBreak, v1) =>
          match gallop (bump_min_gallop false v1) with
          | (LoopBreak, v2) => merge_rounds f pairs gallop (bump_min_gallop true v2)
          | r => r
          end
      | r => r
      end
  end.

Definition MergeLow (w : list A) (minGallop0 baseA lengthA baseB lengthB : Z) : list A * Z :=
  let fuel := List.length w in
  let t := Copy w baseA (repeat hole (Z.to_nat lengthA)) 0 lengthA in
  let w := fa_set w baseA (fa_get w baseB) in
  let v := mkMV w t lengthA (lengthB - 1) (baseA + 1) 0 (baseB + 1) 0 0 minGallop0 minGallop0 in
  let '(ex, v) :=
    if lengthB - 1 =? 0 then (GotoSucceed, v)
    else if lengthA =? 1 then (GotoCopy, v)
    else merge_rounds fuel (low_pairs fuel) (low_gallop fuel true) v in
  let '(mkMV w t la lb d ct cb _ _ _ smg) := v in
  match ex with
  | GotoCopy => (fa_set (Copy w cb w d lb) (d + lb) (fa_get t ct), smg)
  | _ => (if 0 <? la then Copy t ct w d la else w, smg)
  end.

Fixpoint high_pairs (fuel : nat) (v : MergeVars) : LoopExit * MergeVars :=
  match fuel with
  | O => (GotoSucceed, v)
  | S f =>
      let '(mkMV w t la lb d ct ca wa wb mg smg) := v in
      if Compare (fa_get t ct) (fa_get w ca) <? 0 then
        let v' := mkMV (fa_set w d (fa_get w ca)) t (la - 1) lb (d - 1) ct (ca - 1)
                       (wa + 1) 0 mg smg in
        if la - 1 =? 0 then (GotoSucceed, v')
        else if mg <=? wa + 1 then (LoopBreak, v') else high_pairs f v'
      else
        let v' := mkMV (fa_set w d (fa_get t ct)) t la (lb - 1) (d - 1) (ct - 1) ca
                       0 (wb + 1) mg smg in
        if lb - 1 =? 1 then (GotoCopy, v')
        else if mg <=? wb + 1 then (LoopBreak, v') else high_pairs f v'
  end.

Fixpoint high_gallop (fuel : nat) (baseA : Z) (firstIteration : bool) (v : MergeVars)
  : LoopExit * MergeVars :=
  match fuel with
  | O => (GotoSucceed, v)
  | S f =>
      let '(mkMV w t la lb d ct ca wa wb mg smg) := v in
      if (kMinGallopWins <=? wa) || (kMinGallopWins <=? wb) || firstIteration then
        let mg := Z.max 1 (mg - 1) in
        let smg := mg in
        let k := GallopRight w (fa_get t ct) baseA la (la - 1) in
        let wa := la - k in
        let '(w, d, ca, la) :=
          if 0 <? wa then (Copy w (ca - wa + 1) w (d - wa + 1) wa, d - wa, ca - wa, la - wa)
          else (w, d, ca, la) in
        if (0 <? wa) && (la =? 0) then (GotoSucceed, mkMV w t la lb d ct ca wa wb mg smg)
        else
        let w := fa_set w d (fa_get t ct) in
        let d := d - 1 in
        let ct := ct - 1 in
        let lb := lb - 1 in
        if lb =? 1 then (GotoCopy, mkMV w t la lb d ct ca wa wb mg smg) else
        let k := GallopLeft t (fa_get w ca) 0 lb (lb - 1) in
        let wb := lb - k in
        let '(w, d, ct, lb) :=
          if 0 <? wb then (Copy t (ct - wb + 1) w (d - wb + 1) wb, d - wb, ct - wb, lb - wb)
          else (w, d, ct, lb) in
        if (0 <? wb) && (lb =? 1) then (GotoCopy, mkMV w t la lb d ct ca wa wb mg smg)
        else if (0 <? wb) && (lb =? 0) then (GotoSucceed, mkMV w t la lb d ct ca wa wb mg smg)
        else
        let w := fa_set w d (fa_get w ca) in
        let d := d - 1 in
        let ca := ca - 1 in
        let la := la - 1 in
        if la =? 0 then (GotoSucceed, mkMV w t la lb d ct ca wa wb mg smg)
        else high_gallop f baseA false (mkMV w t la lb d ct ca wa wb mg smg)
      else (LoopBreak, v)
  end.

Definition MergeHigh (w : list A) (minGallop0 baseA lengthA baseB lengthB : Z) : list A * Z :=
  let fuel := List.length w in
  let t := Copy w baseB (repeat hole (Z.to_nat lengthB)) 0 lengthB in
  let d := baseB + lengthB - 1 in
  let ca := baseA + lengthA - 1 in
  let w := fa_set w d (fa_get w ca) in
  let v := mkMV w t (lengthA - 1) lengthB (d - 1) (lengthB - 1) (ca - 1) 0 0
                minGallop0 minGallop0 in
  let '(ex, v) :=
    if lengthA - 1 =? 0 then (GotoSucceed, v)
    else if lengthB =? 1 then (GotoCopy, v)
    else merge_rounds fuel (high_pairs fuel) (high_gallop fuel baseA true) v in
  let '(mkMV w t la lb d ct ca _ _ _ smg) := v in
  match ex with
  | GotoCopy =>
      let d := d - la in
      let ca := ca - la in
      (fa_set (Copy w (ca + 1) w (d + 1) la) d (fa_get t ct), smg)
  | _ => (if 0 <? lb then Copy t 0 w (d - (lb - 1)) lb else w, smg)
  end.

(** The sort state: the work array, the stack of pending runs (base and
    length, bottom first) and [minGallop]. *)
Record SortState := mkSS { ssWork : list A; pendingRuns : list (Z * Z); ssMinGallop : Z }.

Definition MergeAt (st : SortState) (i : nat) : SortState :=
  let '(mkSS w runs mg) := st in
  let '(baseA, lengthA) := nth i runs (0, 0) in
  let '(baseB, lengthB) := nth (S i) runs (0, 0) in
  let runs := firstn i runs ++ (baseA, lengthA + lengthB) :: skipn (S (S i)) runs in
  let k := GallopRight w (fa_get w baseB) baseA lengthA 0 in
  let baseA := baseA + k in
  let lengthA := lengthA - k in
  if lengthA =? 0 then mkSS w runs mg else
  let lengthB := GallopLeft w (fa_get w (baseA + lengthA - 1)) baseB lengthB (lengthB - 1) in
  if lengthB =? 0 then mkSS w runs mg else
  let '(w, mg) :=
    if lengthA <=? lengthB then MergeLow w mg baseA lengthA baseB lengthB
    else MergeHigh w mg baseA lengthA baseB lengthB in
  mkSS w runs mg.

Definition run_length (runs : list (Z * Z)) (n : nat) : Z := snd (nth n runs (0, 0)).

Definition RunInvariantEstablished (runs : list (Z * Z)) (n : nat) : bool :=
  match n with
  | O | S O => true
  | S (S n2 as n1) => run_length runs (S n1) + run_length runs n1 <? run_length runs n2
  end.

Fixpoint MergeCollapse (fuel : nat) (st : SortState) : SortState :=
  match fuel with
  | O => st
  | S f =>
      let runs := pendingRuns st in
      if Nat.ltb 1 (List.length runs) then
        let n := (List.length runs - 2)%nat in
        if negb (RunInvariantEstablished runs (S n)) || negb (RunInvariantEstablished runs n)
        then
          let n := if run_length runs (Nat.pred n) <? run_length runs (S n)
                   then Nat.pred n else n in
          MergeCollapse f (MergeAt st n)
        else if run_length runs n <=? run_length runs (S n) then MergeCollapse f (MergeAt st n)
        else st
      else st
  end.

Fixpoint MergeForceCollapse (fuel : nat) (st : SortState) : SortState :=
  match fuel with
  | O => st
  | S f =>
      let runs := pendingRuns st in
      if Nat.ltb 1 (List.length runs) then
        let n := (List.length runs - 2)%nat in
        let n := if Nat.ltb 0 n && (run_length runs (Nat.pred n) <? run_length runs (S n))
                 then Nat.pred n else n in
        MergeForceCollapse f (MergeAt st n)
      else st
  end.

Fixpoint run_march (fuel : nat) (minRunLength : Z) (st : SortState) (low remaining : Z)
  : SortState :=
  match fuel with
  | O => st
  | S f =>
      if negb (remaining =? 0) then
        let '(w, currentRunLength) := CountAndMakeRun (ssWork st) low (low + remaining) in
        let '(w, currentRunLength) :=
          if currentRunLength <? minRunLength then
            let forcedRunLength := Z.min minRunLength remaining in
            (BinaryInsertionSort w low (low + currentRunLength) (low + forcedRunLength),
             forcedRunLength)
          else (w, currentRunLength) in
        let st := mkSS w (pendingRuns st ++ [(low, currentRunLength)]) (ssMinGallop st) in
        let st := MergeCollapse (List.length w) st in
        run_march f minRunLength st (low + currentRunLength) (remaining - currentRunLength)
      else st
  end.

Definition ArrayTimSortImpl (w : list A) : list A :=
  let length := Z.of_nat (List.length w) in
  if length <? 2 then w else
  let st := run_march (List.length w) (ComputeMinRunLength length)
              (mkSS w [] kMinGallopWins) 0 length in
  ssWork (MergeForceCollapse (List.length w) st).

End TimSort.

Arguments ArrayTimSortImpl {A} Compare hole w.

(** The placeholder of the temporary array. *)
Definition no_document : DocumentIndexInfo := {| filename := []; frontmatter := [] |}.

(** [documents.sort((a, b) => (a.frontmatter.id > b.frontmatter.id ? 1 : -1))] *)
Definition sort_docs (l : list DocumentIndexInfo) : list DocumentIndexInfo :=
  ArrayTimSortImpl id_compare no_document l.

(** [if (documents.every((d) => d.frontmatter.id)) documents.sort(...)] *)
Definition order_documents (documents : list DocumentIndexInfo)
  : list DocumentIndexInfo :=
  if forallb (fun d => truthy (doc_id d)) documents
  then sort_docs documents else documents.

Definition render_index (cfg : IndexingConfig)
  (documents : list DocumentIndexInfo) : jsstr :=
  match documents with
  | [] => lit "No documents found for this type."
  | _ =>
      match cfg.(format) with
      | Some FormatList => generateMarkdownList documents
      | _ => generateMarkdownTable documents cfg.(columns)
      end
  end.

(** [`${START_MARKER}\n\n${newIndexContent}\n\n${END_MARKER}`] *)
Definition wrap_region (newIndexContent : jsstr) : jsstr :=
  START_MARKER ++ nl ++ nl ++ newIndexContent ++ nl ++ nl ++ END_MARKER.

(** The merge of step 4 for an existing [index.md]. *)
Definition merge_existing (existingContent fullNewContent : jsstr) : jsstr :=
  match indexOf START_MARKER existingContent, indexOf END_MARKER existingContent with
  | Some startMarkerIndex, Some endMarkerIndex =>
      substring_to startMarkerIndex existingContent ++ fullNewContent ++
      substring_from (endMarkerIndex + List.length END_MARKER) existingContent
  | _, _ => js_trim existingContent ++ nl ++ nl ++ fullNewContent
  end.

(** [.replace(/[-_]/g, " ").replace(/\b\w/g, (l) => l.toUpperCase())] *)
Fixpoint capitalize_words (prev_word : bool) (s : jsstr) : jsstr :=
  match s with
  | [] => []
  | c :: s' =>
      if is_word c
      then (if prev_word then c else to_upper c) :: capitalize_words true s'
      else c :: capitalize_words false s'
  end.

Definition title_of_path (p : jsstr) : jsstr :=
  capitalize_words false
    (map (fun c => if Ascii.eqb c "-"%char || Ascii.eqb c "_"%char then " "%char else c) p).

(** [updateIndexFile]: the content written to [index.md], or [None] when the
    function rejects (a document read fails, or [index.md] cannot be read for
    another reason than ENOENT). *)
Definition updateIndexFile (typePath : jsstr) (cfg : IndexingConfig)
  (listing : Listing) (index : IndexFile) : option jsstr :=
  match read_all (filter (fun e => is_doc_file (fst e)) listing) with
  | None => None
  | Some documents =>
      let fullNewContent := wrap_region (render_index cfg (order_documents documents)) in
      match index with
      | IndexPresent existingContent => Some (merge_existing existingContent fullNewContent)
      | IndexMissing =>
          Some (lit "# Index of " ++ title_of_path typePath ++ nl ++ nl ++ fullNewContent)
      | IndexUnreadable => None
      end
  end.

(** Running the synchronizer and writing its output back to [index.md]. *)
Definition sync_twice (typePath : jsstr) (cfg : IndexingConfig)
  (listing : Listing) (index : IndexFile) : option (jsstr * jsstr) :=
  match updateIndexFile typePath cfg listing index with
  | None => None
  | Some first =>
      match updateIndexFile typePath cfg listing (IndexPresent first) with
      | None => None
      | Some second => Some (first, second)
      end
  end.

(** ** The front-matter schema of [types/folio.ts] *)

Inductive FieldType := TString | TNumber | TBoolean | TDate.

(** An entry of [enum?: readonly (string | number)[]]. *)
Inductive EnumLit := EStr (s : jsstr) | ENum (z : Z).

(** [default?: any | (() => any)]: a literal or a zero-argument generator. *)
Inductive DefaultValue :=
| DefLiteral (v : jsval)
| DefGenerator (gen : unit -> jsval).

Record FrontmatterField := {
  ftype : FieldType;
  required : bool;
  unique : bool;
  isArray : bool;
  default : option DefaultValue;
  enum : option (list EnumLit);
  pattern : option (jsstr -> bool);
  minLength : option Z;
  minimum : option Z
}.

(** A schema: the fields of the configuration object, in key order (the keys
    of a JavaScript object are distinct). *)
Definition FrontmatterSchema := list (jsstr * FrontmatterField).

(** ** The Zod validators [buildZodSchema] composes (Zod v3) *)

Inductive ZCheck :=
| ZMin (n : Z)                  (* [.min(n)] on a string: its length *)
| ZRegex (test : jsstr -> bool). (* [.regex(re)] *)

Inductive ZodType :=
| ZodString (checks : list ZCheck)
| ZodNumber (minimums : list Z)
| ZodBoolean
| ZodEnum (values : list jsstr)
| ZodArray (item : ZodType)
| ZodOptional (inner : ZodType).

Inductive PathSeg := PKey (k : jsstr) | PIdx (i : nat).

Inductive IssueCode :=
| InvalidType
| TooSmall
| InvalidString
| InvalidEnumValue
| UnrecognizedKeys (keys : list jsstr).

Record Issue := { ipath : list PathSeg; icode : IssueCode }.

(** An allocation site: the file whose parse built the array, and a counter
    local to that parse. *)
Definition Loc := (jsstr * nat)%type.

(** The values a successful parse returns; an array is a fresh object. *)
Inductive PVal :=
| PStr (s : jsstr)
| PNum (z : Z)
| PBool (b : bool)
| PArr (loc : Loc) (items : list PVal).

(** [/^\d{4}-\d{2}-\d{2}$/.test(s)] *)
Definition is_date_ymd (s : jsstr) : bool :=
  match s with
  | [y1; y2; y3; y4; d1; m1; m2; d2; a1; a2] =>
      forallb is_digit [y1; y2; y3; y4; m1; m2; a1; a2]
      && Ascii.eqb d1 "-"%char && Ascii.eqb d2 "-"%char
  | _ => false
  end.

Definition string_issues (path : list PathSeg) (checks : list ZCheck) (s : jsstr)
  : list Issue :=
  flat_map (fun ck =>
    match ck with
    | ZMin n => if Z.ltb (Z.of_nat (List.length s)) n
                then [{| ipath := path; icode := TooSmall |}] else []
    | ZRegex test => if test s then [] else [{| ipath := path; icode := InvalidString |}]
    end) checks.

Definition invalid_type (path : list PathSeg) : list Issue :=
  [{| ipath := path; icode := InvalidType |}].

(** [schema._parse] on a value ([None] is [undefined]); the result is the
    issues, the parsed value, and the next free allocation counter. *)
Fixpoint zparse (owner : jsstr) (t : ZodType) (path : list PathSeg)
  (v : option jsval) (next : nat) : list Issue * option PVal * nat :=
  match t with
  | ZodOptional inner =>
      match v with
      | None => ([], None, next)
      | Some _ => zparse owner inner path v next
      end
  | ZodString checks =>
      match v with
      | Some (JStr s) => (string_issues path checks s, Some (PStr s), next)
      | _ => (invalid_type path, None, next)
      end
  | ZodNumber minimums =>
      match v with
      | Some (JNum z) =>
          (flat_map (fun m => if Z.ltb z m
                              then [{| ipath := path; icode := TooSmall |}] else [])
             minimums, Some (PNum z), next)
      | _ => (invalid_type path, None, next)
      end
  | ZodBoolean =>
      match v with
      | Some (JBool b) => ([], Some (PBool b), next)
      | _ => (invalid_type path, None, next)
      end
  | ZodEnum values =>
      match v with
      | Some (JStr s) =>
          if existsb (str_eqb s) values then ([], Some (PStr s), next)
          else ([{| ipath := path; icode := InvalidEnumValue |}], None, next)
      | _ => (invalid_type path, None, next)
      end
  | ZodArray item =>
      match v with
      | Some (JArr l) =>
          let fix go (i : nat) (l : list jsval) (n : nat)
              : list Issue * list PVal * nat :=
              match l with
              | [] => ([], [], n)
              | x :: l' =>
                  let '(is1, r1, n1) := zparse owner item (path ++ [PIdx i]) (Some x) n in
                  let '(is2, rs, n2) := go (S i) l' n1 in
                  (is1 ++ is2, match r1 with Some p => p :: rs | None => rs end, n2)
              end in
          let '(is, items, n') := go 0 l (S next) in
          (is, Some (PArr (owner, next) items), n')
      | _ => (invalid_type path, None, next)
      end
  end.

(** The shape loop of [z.object(shape)]: the issues of every key in shape
    order and the defined parsed values. *)
Fixpoint parse_fields (owner : jsstr) (data : FM) (sh : list (jsstr * ZodType)) (n : nat)
  : list Issue * list (jsstr * PVal) :=
  match sh with
  | [] => ([], [])
  | (k, t) :: sh' =>
      let '(is1, r, n1) := zparse owner t [PKey k] (fm_get k data) n in
      let '(is2, out) := parse_fields owner data sh' n1 in
      (is1 ++ is2, match r with Some p => (k, p) :: out | None => out end)
  end.

(** [z.object(shape).strict().safeParse(data)]: the issues of the shape,
    then one [unrecognized_keys] issue listing the keys of the data absent
    from the shape; success is the empty issue list. *)
Definition parse_object (owner : jsstr) (shape : list (jsstr * ZodType)) (data : FM)
  : list Issue * list (jsstr * PVal) :=
  let '(issues, out) := parse_fields owner data shape 0 in
  let extraKeys :=
    map fst (filter (fun e => negb (existsb (str_eqb (fst e)) (map fst shape))) data) in
  match extraKeys with
  | [] => (issues, out)
  | _ => (issues ++ [{| ipath := []; icode := UnrecognizedKeys extraKeys |}], out)
  end.

(** ** [buildZodSchema] *)

Definition base_validator (field : FrontmatterField) : ZodType :=
  match field.(ftype) with
  | TString =>
      ZodString
        ((match field.(minLength) with
          | Some n => if Z.eqb n 0 then [] else [ZMin n]
          | None => []
          end) ++
         (match field.(pattern) with Some re => [ZRegex re] | None => [] end))
  | TNumber =>
      ZodNumber (match field.(minimum) with Some m => [m] | None => [] end)
  | TBoolean => ZodBoolean
  | TDate => ZodString [ZRegex is_date_ymd]
  end.

(** [String(e)] for an enum entry. *)
Definition enum_string (e : EnumLit) : jsstr :=
  match e with EStr s => s | ENum z => z_dec z end.

Definition field_validator (field : FrontmatterField) : ZodType :=
  let validator := base_validator field in
  let validator :=
    match field.(enum) with
    | Some values =>
        match map enum_string values with
        | first :: rest =>
            match first with
            | [] => validator           (* [if (first)]: "" is falsy *)
            | _ => ZodEnum (first :: rest)
            end
        | [] => validator
        end
    | None => validator
    end in
  let validator := if field.(isArray) then ZodArray validator else validator in
  if field.(required) then validator else ZodOptional validator.

Definition buildZodSchema (schemaConfig : FrontmatterSchema) : list (jsstr * ZodType) :=
  map (fun e => (fst e, field_validator (snd e))) schemaConfig.

(** ** [validateDocType] *)

Inductive ValidationError :=
| InvalidFrontmatter (file : jsstr) (issues : list Issue)
| DuplicateUnique (fieldName : jsstr) (file : jsstr) (firstSeen : jsstr)
| ReadFailure (file : jsstr).

(** [SameValueZero], the key equality of [Map]: arrays by identity. *)
Definition same_value_zero (a b : PVal) : bool :=
  match a, b with
  | PStr x, PStr y => str_eqb x y
  | PNum x, PNum y => Z.eqb x y
  | PBool x, PBool y => Bool.eqb x y
  | PArr (o1, n1) _, PArr (o2, n2) _ => str_eqb o1 o2 && Nat.eqb n1 n2
  | _, _ => false
  end.

(** A [Map<any, string>] in insertion order. *)
Definition ValueMap := list (PVal * jsstr).

Fixpoint map_get (m : ValueMap) (v : PVal) : option jsstr :=
  match m with
  | [] => None
  | (k, f) :: m' => if same_value_zero k v then Some f else map_get m' v
  end.

Definition UniqueMaps := list (jsstr * ValueMap).

Fixpoint lookup_out (k : jsstr) (out : list (jsstr * PVal)) : option PVal :=
  match out with
  | [] => None
  | (k', p) :: out' => if str_eqb k k' then Some p else lookup_out k out'
  end.

(** The loop [for (const [fieldName, valueMap] of uniqueValueMaps.entries())]. *)
Fixpoint check_unique (file : jsstr) (out : list (jsstr * PVal)) (maps : UniqueMaps)
  : list ValidationError * UniqueMaps :=
  match maps with
  | [] => ([], [])
  | (fieldName, valueMap) :: maps' =>
      let '(errs, maps'') := check_unique file out maps' in
      match lookup_out fieldName out with
      | None => (errs, (fieldName, valueMap) :: maps'')
      | Some value =>
          match map_get valueMap value with
          | Some firstSeen =>
              (DuplicateUnique fieldName file firstSeen :: errs,
               (fieldName, valueMap) :: maps'')
          | None => (errs, (fieldName, valueMap ++ [(value, file)]) :: maps'')
          end
      end
  end.

(** [file.endsWith(".md") || file.endsWith(".mdx")] *)
Definition is_md_file (file : jsstr) : bool :=
  ends_with (lit ".md") file || ends_with (lit ".mdx") file.

(** One iteration of [for (const file of files)]: whether the file is
    counted, the errors pushed, and the uniqueness maps afterwards. *)
Definition process_file (shape : list (jsstr * ZodType)) (maps : UniqueMaps)
  (entry : jsstr * option FM) : bool * list ValidationError * UniqueMaps :=
  let '(file, content) := entry in
  if negb (ends_with (lit ".md") file) && negb (ends_with (lit ".mdx") file)
  then (false, [], maps)
  else
    match content with
    | None => (true, [ReadFailure file], maps)
    | Some data =>
        let '(issues, out) := parse_object file shape data in
        match issues with
        | [] => let '(errs, maps') := check_unique file out maps in (true, errs, maps')
        | _ => (true, [InvalidFrontmatter file issues], maps)
        end
    end.

Record VState := { fileCount : nat; verrors : list ValidationError; vmaps : UniqueMaps }.

Definition validate_step (shape : list (jsstr * ZodType)) (st : VState)
  (entry : jsstr * option FM) : VState :=
  let '(counted, errs, maps') := process_file shape st.(vmaps) entry in
  {| fileCount := if counted then S st.(fileCount) else st.(fileCount);
     verrors := st.(verrors) ++ errs;
     vmaps := maps' |}.

Definition initial_maps (schema : FrontmatterSchema) : UniqueMaps :=
  map (fun e => (fst e, [])) (filter (fun e => (snd e).(unique)) schema).

(** [validateDocType]: the number of checked files and the errors. *)
Definition validateDocType (schema : FrontmatterSchema) (files : Listing)
  : nat * list ValidationError :=
  let st := fold_left (validate_step (buildZodSchema schema)) files
              {| fileCount := 0; verrors := []; vmaps := initial_maps schema |} in
  (st.(fileCount), st.(verrors)).

(** ** The commands that call the synchronizer and the validator *)

(** A document type of the configuration ([DocumentType] of [types/folio.ts]):
    its directory under the root, its template and its front-matter schema. *)
Record DocumentType := {
  dpath : jsstr;
  dtemplate : jsstr;
  dfrontmatter : FrontmatterSchema
}.

(** [config.types[type]] over the entries of [config.types]. *)
Fixpoint type_get (t : jsstr) (types : list (jsstr * DocumentType)) : option DocumentType :=
  match types with
  | [] => None
  | (name, tc) :: types' => if str_eqb t name then Some tc else type_get t types'
  end.

(** The names of the properties of [Object.prototype], which a plain object
    such as [config.types] inherits: each reads as a truthy value (a
    function, or [Object.prototype] itself for [__proto__]) that is not a
    document type. *)
Definition object_prototype_names : list jsstr :=
  map lit ["constructor"; "__proto__"; "hasOwnProperty"; "isPrototypeOf";
           "propertyIsEnumerable"; "toString"; "valueOf"; "toLocaleString";
           "__defineGetter__"; "__defineSetter__"; "__lookupGetter__";
           "__lookupSetter__"]%string.

Definition object_prototype_name (t : jsstr) : bool :=
  existsb (str_eqb t) object_prototype_names.

(** [schemaConfig[fieldName]] *)
Fixpoint schema_get (k : jsstr) (schema : FrontmatterSchema) : option FrontmatterField :=
  match schema with
  | [] => None
  | (name, f) :: schema' => if str_eqb k name then Some f else schema_get k schema'
  end.

(** The assignment [data[k] = v] on a front-matter object: an existing key
    keeps its place, a new key goes last. *)
Fixpoint fm_set (k : jsstr) (v : jsval) (fm : FM) : FM :=
  match fm with
  | [] => [(k, v)]
  | (k', v') :: fm' => if str_eqb k k' then (k', v) :: fm' else (k', v') :: fm_set k v fm'
  end.

(** [{ ...base, ...updates }] *)
Definition fm_spread (base updates : FM) : FM :=
  fold_left (fun acc e => fm_set (fst e) (snd e) acc) updates base.

(** [s.includes(p)] on strings. *)
Definition str_includes (s p : jsstr) : bool :=
  match indexOf p s with Some _ => true | None => false end.

(** A file the command wrote, read back by the next [readdir]: its entry of
    the listing now holds the front matter written. *)
Definition replace_entry (file : jsstr) (data : FM) (files : Listing) : Listing :=
  map (fun e => if str_eqb (fst e) file then (file, Some data) else e) files.

(** *** [handleStatus] *)

(** [statusField.enum.includes(newStatus)]: SameValueZero, so a number entry
    never equals the string argument. *)
Definition enum_includes (values : list EnumLit) (s : jsstr) : bool :=
  existsb (fun e => match e with EStr x => str_eqb x s | ENum _ => false end) values.

Inductive TargetSearch :=
| TargetFound (file : jsstr) (data : FM)
| TargetMissing
| TargetReadError.

(** The loop [for (const file of files)] of step 3: Markdown files are read in
    order until one has a truthy [id] whose [String] is the requested id; a
    failed read throws. *)
Fixpoint find_target (id : jsstr) (files : Listing) : TargetSearch :=
  match files with
  | [] => TargetMissing
  | (file, content) :: files' =>
      if negb (ends_with (lit ".md") file) && negb (ends_with (lit ".mdx") file)
      then find_target id files'
      else
        match content with
        | None => TargetReadError
        | Some data =>
            match fm_get (lit "id") data with
            | Some v =>
                if truthy (Some v) && str_eqb (js_to_string v) id
                then TargetFound file data else find_target id files'
            | None => find_target id files'
            end
        end
  end.

(** [["dateModified", "date", "updated_at"].find((field) => docTypeConfig.frontmatter[field])] *)
Definition date_field_to_update (schema : FrontmatterSchema) : option jsstr :=
  find (fun field => match schema_get field schema with Some _ => true | None => false end)
       [lit "dateModified"; lit "date"; lit "updated_at"].

Inductive StatusOutcome :=
| StatusUnknownType
| StatusNoField
| StatusInvalid
| StatusNotFound
| StatusFailed
| StatusUpdated (file : jsstr) (data : FM) (index : jsstr).

(** [handleStatus type id newStatus], for the listing of the type directory,
    the configured indexing, the current [index.md] and today's date
    ([new Date().toISOString().split("T")[0]]). [StatusFailed] is the
    [catch] branch (exit code 1): an inherited name of [config.types] passes
    the test [!docTypeConfig] and reading [.frontmatter.status] of it throws.
    Every file's front matter is the one parsed from its own text and the
    index is the one read before the command; the program differs from this
    when gray-matter's cache hands the mutated [data] object to a file of the
    same text as the target, or when the target is [index.md] itself. *)
Definition handleStatus (types : list (jsstr * DocumentType)) (cfg : IndexingConfig)
  (type id newStatus today : jsstr) (files : Listing) (index : IndexFile) : StatusOutcome :=
  match type_get type types with
  | None => if object_prototype_name type then StatusFailed else StatusUnknownType
  | Some docTypeConfig =>
      match schema_get (lit "status") docTypeConfig.(dfrontmatter) with
      | None => StatusNoField
      | Some statusField =>
          if match statusField.(enum) with
             | Some values => negb (enum_includes values newStatus)
             | None => false
             end
          then StatusInvalid
          else
            match find_target id files with
            | TargetReadError => StatusFailed
            | TargetMissing => StatusNotFound
            | TargetFound file data =>
                let data1 := fm_set (lit "status") (JStr newStatus) data in
                let data2 :=
                  match date_field_to_update docTypeConfig.(dfrontmatter) with
                  | Some field => fm_set field (JStr today) data1
                  | None => data1
                  end in
                match updateIndexFile docTypeConfig.(dpath) cfg
                        (replace_entry file data2 files) index with
                | None => StatusFailed
                | Some content => StatusUpdated file data2 content
                end
            end
      end
  end.

(** *** [handleValidate] *)

Inductive ValidateOutcome :=
| ValidateUnknownType
| ValidateFailed
| ValidateSummary (totalFilesChecked : nat) (allErrors : list ValidationError)
                  (exitFailure : bool).

Definition validate_types (l : list (DocumentType * Listing)) : ValidateOutcome :=
  let results := map (fun e => validateDocType (fst e).(dfrontmatter) (snd e)) l in
  let totalFilesChecked := fold_left Nat.add (map fst results) 0 in
  let allErrors := List.concat (map snd results) in
  ValidateSummary totalFilesChecked allErrors
    (negb (Nat.eqb (fold_left Nat.add (map (fun r => List.length (snd r)) results) 0) 0)).

(** [handleValidate type]: the types of the configuration in enumeration
    order, each with the listing of its directory; [None] is an omitted
    argument. [ValidateFailed] is the [catch] branch (exit code 1): an
    inherited name of [config.types] passes the test [!config.types[type]],
    and [validateDocType] throws in [path.join] on its [undefined] path. *)
Definition handleValidate (types : list (jsstr * (DocumentType * Listing)))
  (type : option jsstr) : ValidateOutcome :=
  match type with
  | Some ((_ :: _) as t) =>
      match find (fun e => str_eqb t (fst e)) types with
      | None => if object_prototype_name t then ValidateFailed else ValidateUnknownType
      | Some e => validate_types [snd e]
      end
  | _ => validate_types (map snd types)
  end.

(** *** The [adr] command (a caller of [updateIndexFile]) *)

(** [/^\\d+/.test(file)]: in the regular expression literal [\\] is a
    backslash, so the pattern is a backslash followed by one or more [d]. *)
Definition adr_name_test (file : jsstr) : bool :=
  match file with
  | c :: d :: _ => Ascii.eqb c "\"%char && Ascii.eqb d "d"%char
  | _ => false
  end.

Fixpoint take_while (p : ascii -> bool) (s : jsstr) : jsstr :=
  match s with
  | [] => []
  | c :: s' => if p c then c :: take_while p s' else []
  end.

Fixpoint drop_while (p : ascii -> bool) (s : jsstr) : jsstr :=
  match s with
  | [] => []
  | c :: s' => if p c then drop_while p s' else s
  end.

(** [filename.match(/^(\\d+)/)] and its group 1. *)
Definition adr_id_match (file : jsstr) : option jsstr :=
  match file with
  | c :: d :: rest =>
      if Ascii.eqb c "\"%char && Ascii.eqb d "d"%char
      then Some (c :: d :: take_while (fun x => Ascii.eqb x "d"%char) rest)
      else None
  | _ => None
  end.

(** [parseInt(s, 10)]: leading white space, an optional sign, then the
    longest run of decimal digits; none gives NaN ([None]). *)
Definition parse_int10 (s : jsstr) : option Z :=
  let s := trim_start s in
  let '(sign, rest) :=
    match s with
    | c :: s' =>
        if Ascii.eqb c "-"%char then ((-1)%Z, s')
        else if Ascii.eqb c "+"%char then (1%Z, s') else (1%Z, s)
    | [] => (1%Z, [])
    end in
  match take_while is_digit rest with
  | [] => None
  | ds => option_map (Z.mul sign) (digits_value ds 0)
  end.

(** [s.replace(/\\.(md|mdx)$/, "")]: the leftmost match of a backslash, any
    character but a line terminator, then [md] or [mdx] up to the end. *)
Fixpoint strip_md_suffix (s : jsstr) : jsstr :=
  match s with
  | [] => []
  | c :: rest =>
      match rest with
      | d :: tail =>
          if Ascii.eqb c "\"%char
             && negb (Nat.eqb (nat_of_ascii d) 10 || Nat.eqb (nat_of_ascii d) 13)
             && (str_eqb tail (lit "md") || str_eqb tail (lit "mdx"))
          then [] else c :: strip_md_suffix rest
      | [] => [c]
      end
  end.

Record ADRDocument := {
  adr_filename : jsstr;
  adr_frontmatter : FM;
  adr_id : option Z;
  adr_title : jsval;
  adr_status : jsval
}.

(** [value || fallback] *)
Definition or_else (v : option jsval) (fallback : jsval) : jsval :=
  match v with
  | Some x => if truthy (Some x) then x else fallback
  | None => fallback
  end.

Definition adr_of (file : jsstr) (data : FM) : ADRDocument :=
  {| adr_filename := file;
     adr_frontmatter := data;
     adr_id := match adr_id_match file with Some g => parse_int10 g | None => Some 0%Z end;
     adr_title := or_else (fm_get (lit "title") data) (JStr (strip_md_suffix file));
     adr_status := or_else (fm_get (lit "status") data) (JStr (lit "unknown")) |}.

(** The read loop of [getADRDocuments]; a failed read throws. *)
Fixpoint adr_documents (files : Listing) : option (list ADRDocument) :=
  match files with
  | [] => Some []
  | (file, content) :: files' =>
      if is_doc_file file && adr_name_test file then
        match content with
        | None => None
        | Some data => option_map (cons (adr_of file data)) (adr_documents files')
        end
      else adr_documents files'
  end.

(** The comparator [(a, b) => a.id - b.id]; NaN counts as 0. *)
Definition adr_compare (a b : ADRDocument) : Z :=
  match a.(adr_id), b.(adr_id) with
  | Some x, Some y => (x - y)%Z
  | _, _ => 0%Z
  end.

Fixpoint adr_insert (x : ADRDocument) (l : list ADRDocument) : list ADRDocument :=
  match l with
  | [] => [x]
  | y :: l' => if Z.ltb (adr_compare x y) 0 then x :: l else y :: adr_insert x l'
  end.

Definition getADRDocuments (files : Listing) : option (list ADRDocument) :=
  option_map (fun adrs => fold_left (fun acc x => adr_insert x acc) adrs [])
    (adr_documents files).

(** [Object.entries(config.types).find(... path.includes("adr") || template.includes("adr"))] *)
Definition adr_type (types : list (jsstr * DocumentType)) : option (jsstr * DocumentType) :=
  find (fun e => str_includes (snd e).(dpath) (lit "adr")
                 || str_includes (snd e).(dtemplate) (lit "adr")) types.

(** [String(n).padStart(4, "0")] *)
Definition pad_start4 (s : jsstr) : jsstr := repeat "0"%char (4 - List.length s) ++ s.

(** [toLowerCase] on the 8-bit characters. *)
Definition to_lower (c : ascii) : ascii :=
  let n := nat_of_ascii c in
  if (65 <=? n) && (n <=? 90) || (192 <=? n) && (n <=? 222) && negb (n =? 215)
  then ascii_of_nat (n + 32) else c.

(** [.replace(/^\\d+[-\\s]*/, "")]: a backslash, the [d]s after it, then the
    characters of the class [-], backslash and [s]. *)
Definition strip_number_prefix (t : jsstr) : jsstr :=
  match t with
  | c :: d :: rest =>
      if Ascii.eqb c "\"%char && Ascii.eqb d "d"%char
      then drop_while (fun x => Ascii.eqb x "-"%char || Ascii.eqb x "\"%char
                                || Ascii.eqb x "s"%char)
             (drop_while (fun x => Ascii.eqb x "d"%char) rest)
      else t
  | _ => t
  end.

(** [.replace(/[^a-z0-9]+/g, "-")] *)
Fixpoint dash_runs (in_run : bool) (s : jsstr) : jsstr :=
  match s with
  | [] => []
  | c :: s' =>
      if is_lower c || is_digit c then c :: dash_runs false s'
      else if in_run then dash_runs true s' else "-"%char :: dash_runs true s'
  end.

Definition new_adr_filename (newId : Z) (title : jsstr) : jsstr :=
  pad_start4 (z_dec newId) ++ lit "-"
    ++ dash_runs false (map to_lower (strip_number_prefix title)) ++ lit ".md".

(** The planning loop of [handleRenumber]: [adr.title.replace] throws when
    the title is not a string. *)
Fixpoint renumber_plan (startFrom : Z) (i : nat) (adrs : list ADRDocument)
  : option (list (ADRDocument * Z * jsstr)) :=
  match adrs with
  | [] => Some []
  | adr :: adrs' =>
      match adr.(adr_title) with
      | JStr t =>
          let newId := (startFrom + Z.of_nat i)%Z in
          option_map (cons (adr, newId, new_adr_filename newId t))
            (renumber_plan startFrom (S i) adrs')
      | _ => None
      end
  end.

(** [options["start-from"] || 1], the option parsed by [parseInt]. *)
Definition renumber_start (start : option Z) : Z :=
  match start with
  | Some z => if Z.eqb z 0 then 1%Z else z
  | None => 1%Z
  end.

(** [adr.id.toString()] *)
Definition id_to_string (id : option Z) : jsstr :=
  match id with Some z => z_dec z | None => lit "NaN" end.

(** The predicate of [adrs.find] in [handleDeprecate]. *)
Definition deprecate_match (adrId : jsstr) (adr : ADRDocument) : bool :=
  str_eqb (id_to_string adr.(adr_id)) adrId
  || str_includes adr.(adr_filename) adrId
  || match fm_get (lit "id") adr.(adr_frontmatter) with
     | Some (JStr s) => str_eqb s adrId
     | _ => false
     end.

Inductive DeprecateOutcome :=
| DeprecateFailed
| DeprecateAlready
| DeprecateDryRun
| DeprecateWritten (file : jsstr) (data : FM) (index : jsstr).

(** The [updates] object of [handleDeprecate]. *)
Definition deprecate_updates (today : jsstr) (reason supersededBy : option jsstr) : FM :=
  [(lit "status", JStr (lit "deprecated")); (lit "deprecated_date", JStr today)]
  ++ match reason with Some ((_ :: _) as r) => [(lit "deprecation_reason", JStr r)] | _ => [] end
  ++ match supersededBy with
     | Some ((_ :: _) as s) => [(lit "superseded_by", JStr s)]
     | _ => []
     end.

(** [handleDeprecate adrId options]; [DeprecateFailed] is the [catch]
    branch (exit code 1). *)
Definition handleDeprecate (types : list (jsstr * DocumentType)) (cfg : IndexingConfig)
  (adrId : jsstr) (reason supersededBy : option jsstr) (dryRun : bool) (today : jsstr)
  (files : Listing) (index : IndexFile) : DeprecateOutcome :=
  match adr_type types with
  | None => DeprecateFailed
  | Some (_, tc) =>
      match getADRDocuments files with
      | None => DeprecateFailed
      | Some adrs =>
          match find (deprecate_match adrId) adrs with
          | None => DeprecateFailed
          | Some target =>
              if match target.(adr_status) with
                 | JStr s => str_eqb s (lit "deprecated")
                 | _ => false
                 end
              then DeprecateAlready
              else if dryRun then DeprecateDryRun
              else
                let data := fm_spread target.(adr_frontmatter)
                              (deprecate_updates today reason supersededBy) in
                match updateIndexFile tc.(dpath) cfg
                        (replace_entry target.(adr_filename) data files) index with
                | None => DeprecateFailed
                | Some content => DeprecateWritten target.(adr_filename) data content
                end
          end
      end
  end.

(** ** Specification-level notions used by the statements *)

Definition is_duplicate (e : ValidationError) : bool :=
  match e with DuplicateUnique _ _ _ => true | _ => false end.

(** An entry the loop rejects before the uniqueness check: not a Markdown
    file, unreadable, or failing the schema. *)
Definition rejected_entry (shape : list (jsstr * ZodType)) (x : jsstr * option FM) : Prop :=
  is_md_file (fst x) = false \/ snd x = None \/
  exists data, snd x = Some data /\ fst (parse_object (fst x) shape data) <> [].

(** A listed Markdown file whose front matter passes the whole schema. *)
Definition accepted_file (shape : list (jsstr * ZodType)) (files : Listing) (f : jsstr)
  : Prop :=
  exists data, In (f, Some data) files /\ is_md_file f = true /\
    fst (parse_object f shape data) = [].



(** [pre ++ p ++ post] splits [s] at the first occurrence of [p]. *)
Definition first_split (p s pre post : jsstr) : Prop :=
  s = pre ++ p ++ post /\
  forall pre' post', s = pre' ++ p ++ post' -> List.length pre <= List.length pre'.

Definition all_ws (s : jsstr) : Prop := Forall (fun c => is_js_ws c = true) s.

(** The rendered, marker-wrapped region for the documents of a listing. *)
Definition region_of (cfg : IndexingConfig) (listing : Listing) : option jsstr :=
  option_map (fun documents => wrap_region (render_index cfg (order_documents documents)))
    (read_all (filter (fun e => is_doc_file (fst e)) listing)).

(** The errors and maps produced by a run of the loop from given maps. *)
Fixpoint run_from (shape : list (jsstr * ZodType)) (maps : UniqueMaps)
  (l : Listing) : list ValidationError * UniqueMaps :=
  match l with
  | [] => ([], maps)
  | e :: l' =>
      let '(_, errs, maps') := process_file shape maps e in
      let '(errs2, maps2) := run_from shape maps' l' in
      (errs ++ errs2, maps2)
  end.

(** The value map of a field in the uniqueness maps. *)
Fixpoint map_of (k : jsstr) (maps : UniqueMaps) : option ValueMap :=
  match maps with
  | [] => None
  | (k', m) :: maps' => if str_eqb k k' then Some m else map_of k maps'
  end.

(** ** Sample inputs *)

Definition NO_DOCS : jsstr := lit "No documents found for this type.".

Definition sample_cfg : IndexingConfig :=
  {| format := None; columns := [lit "id"; lit "title"; lit "status"] |}.

(** ["before\n<START>\nOLD\n<END>\nafter"] *)
Definition marked_file : jsstr :=
  lit "before" ++ nl ++ START_MARKER ++ nl ++ lit "OLD" ++ nl ++ END_MARKER ++ nl
    ++ lit "after".

Definition sample_listing : Listing :=
  [(lit "002-b.md", Some [(lit "id", JNum 2); (lit "title", JStr (lit "B"))]);
   (lit "index.md", Some []);
   (lit "001-a.md", Some [(lit "id", JNum 1); (lit "title", JStr (lit "A"))])].

(** An index whose end marker was deleted by hand. *)
Definition lone_start_file : jsstr :=
  lit "Intro" ++ nl ++ START_MARKER ++ nl ++ lit "old notes".

(** An index without markers that ends in blank lines. *)
Definition unmarked_file : jsstr := lit "Intro" ++ nl ++ nl ++ nl.

Definition doc_id2 : DocumentIndexInfo :=
  {| filename := lit "two.md"; frontmatter := [(lit "id", JNum 2)] |}.
Definition doc_id0 : DocumentIndexInfo :=
  {| filename := lit "zero.md"; frontmatter := [(lit "id", JNum 0)] |}.
Definition doc_id3 : DocumentIndexInfo :=
  {| filename := lit "three.md"; frontmatter := [(lit "id", JNum 3)] |}.
Definition doc_id1 : DocumentIndexInfo :=
  {| filename := lit "a.md"; frontmatter := [(lit "id", JNum 1)] |}.
Definition doc_idx : DocumentIndexInfo :=
  {| filename := lit "c.md"; frontmatter := [(lit "id", JStr (lit "x"))] |}.
Definition doc_noid : DocumentIndexInfo :=
  {| filename := lit "draft.md"; frontmatter := [(lit "title", JStr (lit "Draft"))] |}.

(** A field with every option unset. *)
Definition plain_field (t : FieldType) : FrontmatterField :=
  {| ftype := t; required := false; unique := false; isArray := false; default := None;
     enum := None; pattern := None; minLength := None; minimum := None |}.

(** [{ type: "number", required: true, unique: true }] *)
Definition id_field : FrontmatterField :=
  {| ftype := TNumber; required := true; unique := true; isArray := false; default := None;
     enum := None; pattern := None; minLength := None; minimum := None |}.

(** [{ type: "string", required: true }] *)
Definition title_field : FrontmatterField :=
  {| ftype := TString; required := true; unique := false; isArray := false; default := None;
     enum := None; pattern := None; minLength := None; minimum := None |}.

(** [{ type: "string", enum: ["proposed", "accepted"] }] *)
Definition status_field : FrontmatterField :=
  {| ftype := TString; required := false; unique := false; isArray := false; default := None;
     enum := Some [EStr (lit "proposed"); EStr (lit "accepted")]; pattern := None;
     minLength := None; minimum := None |}.

(** [{ type: "date", required: false, default: () => "2024-01-01" }] *)
Definition created_field : FrontmatterField :=
  {| ftype := TDate; required := false; unique := false; isArray := false;
     default := Some (DefGenerator (fun _ => JStr (lit "2024-01-01")));
     enum := None; pattern := None; minLength := None; minimum := None |}.


(** [{ type: "number", required: true, enum: [1, 2] }] *)
Definition priority_field : FrontmatterField :=
  {| ftype := TNumber; required := true; unique := false; isArray := false; default := None;
     enum := Some [ENum 1; ENum 2]; pattern := None; minLength := None; minimum := None |}.

(** [{ type: "string", isArray: true, unique: true }] *)
Definition tags_field : FrontmatterField :=
  {| ftype := TString; required := false; unique := true; isArray := true; default := None;
     enum := None; pattern := None; minLength := None; minimum := None |}.

Definition adr_schema : FrontmatterSchema :=
  [(lit "id", id_field); (lit "title", title_field); (lit "status", status_field)].

(** [{ id: 1, title: "Use Rocq", titel: "typo" }] *)
Definition typo_doc : FM :=
  [(lit "id", JNum 1); (lit "title", JStr (lit "Use Rocq")); (lit "titel", JStr (lit "typo"))].

(** The two documents of the example scenario of the spec. *)
Definition dup_listing : Listing :=
  [(lit "a.md", Some [(lit "id", JNum 1); (lit "title", JStr (lit "A"));
                      (lit "status", JStr (lit "proposed"))]);
   (lit "b.md", Some [(lit "id", JNum 3); (lit "title", JStr (lit "B"))]);
   (lit "c.md", Some [(lit "id", JNum 1); (lit "title", JStr (lit "C"));
                      (lit "status", JStr (lit "accepted"))])].

(** [a.md] has a valid id but a title of the wrong type. *)
Definition bad_title_listing : Listing :=
  [(lit "a.md", Some [(lit "id", JNum 1); (lit "title", JNum 5)]);
   (lit "c.md", Some [(lit "id", JNum 1); (lit "title", JStr (lit "C"))])].

Definition tags_listing : Listing :=
  [(lit "a.md", Some [(lit "tags", JArr [JStr (lit "x")])]);
   (lit "b.md", Some [(lit "tags", JArr [JStr (lit "x")])])].

(** [{ path: "adr", template: "adr.md", frontmatter: { id, title, status, dateModified } }] *)
Definition adr_type_config : DocumentType :=
  {| dpath := lit "adr"; dtemplate := lit "adr.md";
     dfrontmatter := adr_schema ++ [(lit "dateModified", plain_field TDate)] |}.

Definition sample_types : list (jsstr * DocumentType) := [(lit "adr", adr_type_config)].

(** An ADR directory: a numbered ADR, the index, and a name that starts with
    a backslash and a [d]. *)
Definition adr_listing : Listing :=
  [(lit "0001-use-rocq.md",
    Some [(lit "id", JNum 1); (lit "title", JStr (lit "Use Rocq"));
          (lit "status", JStr (lit "accepted"))]);
   (lit "index.md", Some []);
   ("\"%char :: lit "d-notes.md",
    Some [(lit "title", JStr (lit "Notes")); (lit "status", JStr (lit "proposed"))])].

(** ** Lemmas on the string functions *)

Lemma ascii_eqb_refl_true (c : ascii) : Ascii.eqb c c = true.
Proof. apply Ascii.eqb_refl. Qed.

Lemma starts_with_app (p t : jsstr) : starts_with p (p ++ t) = true.
Proof.
  induction p as [|c p IH]; simpl; [reflexivity|].
  rewrite ascii_eqb_refl_true, IH; reflexivity.
Qed.

Lemma starts_with_true (p s : jsstr) :
  starts_with p s = true -> exists t, s = p ++ t.
Proof.
  revert s; induction p as [|c p IH]; intros s H.
  - exists s; reflexivity.
  - destruct s as [|d s]; [discriminate|].
    simpl in H; apply andb_true_iff in H as [Hc Hp].
    apply Ascii.eqb_eq in Hc; subst d.
    destruct (IH s Hp) as [t ->]; exists t; reflexivity.
Qed.

Lemma indexOf_eq (p s : jsstr) :
  indexOf p s =
  if starts_with p s then Some 0
  else match s with [] => None | _ :: s' => option_map S (indexOf p s') end.
Proof. destruct s; reflexivity. Qed.

Lemma indexOf_first_split (p s pre post : jsstr) :
  first_split p s pre post -> indexOf p s = Some (List.length pre).
Proof.
  revert s; induction pre as [|c pre IH]; intros s [Hs Hmin].
  - subst s; rewrite indexOf_eq; simpl. rewrite starts_with_app; reflexivity.
  - subst s.
    assert (Hno : starts_with p ((c :: pre) ++ p ++ post) = false).
    { destruct (starts_with p ((c :: pre) ++ p ++ post)) eqn:E; [|reflexivity].
      destruct (starts_with_true _ _ E) as [t Ht].
      specialize (Hmin [] t Ht); simpl in Hmin; lia. }
    rewrite indexOf_eq, Hno.
    rewrite <- app_comm_cons. cbv iota beta.
    rewrite (IH (pre ++ p ++ post)); [reflexivity|].
    split; [reflexivity|].
    intros pre' post' E.
    specialize (Hmin (c :: pre') post'). simpl in Hmin.
    rewrite E in Hmin. specialize (Hmin eq_refl). lia.
Qed.

Lemma substring_to_split (p pre post : jsstr) :
  substring_to (List.length pre) (pre ++ p ++ post) = pre.
Proof.
  unfold substring_to. rewrite firstn_app, Nat.sub_diag, firstn_O, app_nil_r.
  apply firstn_all.
Qed.

Lemma substring_from_split (p pre post : jsstr) :
  substring_from (List.length pre + List.length p) (pre ++ p ++ post) = post.
Proof.
  unfold substring_from. rewrite app_assoc, <- length_app, skipn_app, skipn_all, Nat.sub_diag.
  reflexivity.
Qed.

Lemma trim_start_split (s : jsstr) :
  exists lead, s = lead ++ trim_start s /\ all_ws lead.
Proof.
  induction s as [|c s [lead [Hs Hw]]].
  - exists []; split; [reflexivity | constructor].
  - simpl. destruct (is_js_ws c) eqn:E.
    + exists (c :: lead); split; [simpl; rewrite <- Hs; reflexivity|].
      constructor; assumption.
    + exists []; split; [reflexivity | constructor].
Qed.

Lemma js_trim_split (s : jsstr) :
  exists lead trail, s = lead ++ js_trim s ++ trail /\ all_ws lead /\ all_ws trail.
Proof.
  destruct (trim_start_split s) as [lead [Hs Hl]].
  destruct (trim_start_split (rev (trim_start s))) as [lead' [Hr Hl']].
  exists lead, (rev lead'). split; [|split; [assumption | apply Forall_rev; assumption]].
  unfold js_trim, trim_end.
  rewrite Hs at 1. f_equal.
  rewrite <- rev_app_distr, <- Hr, rev_involutive. reflexivity.
Qed.

Lemma indexOf_some (p s : jsstr) (n : nat) :
  indexOf p s = Some n -> exists pre post, s = pre ++ p ++ post /\ List.length pre = n.
Proof.
  revert n; induction s as [|c s IH]; intros n H; rewrite indexOf_eq in H.
  - destruct (starts_with p []) eqn:E; [|discriminate].
    injection H as <-. destruct (starts_with_true _ _ E) as [t Ht].
    exists [], t; split; [exact Ht | reflexivity].
  - destruct (starts_with p (c :: s)) eqn:E.
    + injection H as <-. destruct (starts_with_true _ _ E) as [t Ht].
      exists [], t; split; [exact Ht | reflexivity].
    + destruct (indexOf p s) as [m|] eqn:Em; [|discriminate].
      simpl in H. injection H as <-.
      destruct (IH m eq_refl) as [pre [post [-> <-]]].
      exists (c :: pre), post; split; reflexivity.
Qed.

Lemma indexOf_le (p pre post : jsstr) :
  exists n, indexOf p (pre ++ p ++ post) = Some n /\ n <= List.length pre.
Proof.
  induction pre as [|c pre [n [Hn Hle]]].
  - exists 0; split; [|simpl; lia].
    rewrite indexOf_eq. simpl. rewrite starts_with_app. reflexivity.
  - rewrite <- app_comm_cons, indexOf_eq.
    destruct (starts_with p (c :: pre ++ p ++ post)).
    + exists 0; split; [reflexivity | simpl; lia].
    + exists (S n); split; [cbv iota beta; rewrite Hn; reflexivity | simpl; lia].
Qed.

(** The position [indexOf] returns is the first occurrence. *)
Lemma first_split_from_indexOf (p s : jsstr) (n : nat) :
  indexOf p s = Some n ->
  first_split p s (substring_to n s) (substring_from (n + List.length p) s).
Proof.
  intros H. destruct (indexOf_some p s n H) as [pre [post [Hs Hn]]].
  subst s n. rewrite substring_to_split, substring_from_split.
  split; [reflexivity|].
  intros pre' post' E.
  destruct (indexOf_le p pre' post') as [m [Hm Hle]].
  rewrite <- E, H in Hm. injection Hm as ->. exact Hle.
Qed.

(** ** The index synchronizer *)

Example render_sample :
  region_of sample_cfg sample_listing =
  Some (wrap_region
    (lit "| id | title | status |" ++ nl ++ lit "| --- | --- | --- |" ++ nl ++
     lit "| 1 | [A](001-a.md) | N/A |" ++ nl ++ lit "| 2 | [B](002-b.md) | N/A |")).
Proof. vm_compute. reflexivity. Qed.

(** C1: when the existing index contains both markers, the written content is
    the text before the first start marker, the marker-wrapped freshly
    rendered region, and the text after the first end marker. *)
Theorem C1_markers_replace_region (typePath : jsstr) (cfg : IndexingConfig)
  (listing : Listing) (s pre1 post1 pre2 post2 : jsstr) :
  first_split START_MARKER s pre1 post1 ->
  first_split END_MARKER s pre2 post2 ->
  updateIndexFile typePath cfg listing (IndexPresent s) =
  option_map (fun region => pre1 ++ region ++ post2) (region_of cfg listing).
Proof.
  intros H1 H2.
  pose proof (indexOf_first_split _ _ _ _ H1) as I1.
  pose proof (indexOf_first_split _ _ _ _ H2) as I2.
  unfold updateIndexFile, region_of.
  destruct (read_all _) as [documents|]; [|reflexivity].
  unfold option_map, merge_existing. rewrite I1, I2.
  destruct H1 as [E1 _]. destruct H2 as [E2 _].
  assert (T : substring_to (List.length pre1) s = pre1)
    by (rewrite E1; apply substring_to_split).
  assert (F : substring_from (List.length pre2 + List.length END_MARKER) s = post2)
    by (rewrite E2; apply substring_from_split).
  rewrite T, F. reflexivity.
Qed.

Lemma C1_witness :
  first_split START_MARKER marked_file (lit "before" ++ nl)
    (nl ++ lit "OLD" ++ nl ++ END_MARKER ++ nl ++ lit "after") /\
  first_split END_MARKER marked_file
    (lit "before" ++ nl ++ START_MARKER ++ nl ++ lit "OLD" ++ nl) (nl ++ lit "after") /\
  updateIndexFile (lit "adr") sample_cfg [] (IndexPresent marked_file) =
  Some (lit "before" ++ nl ++ wrap_region NO_DOCS ++ nl ++ lit "after").
Proof.
  assert (H1 : first_split START_MARKER marked_file (lit "before" ++ nl)
                 (nl ++ lit "OLD" ++ nl ++ END_MARKER ++ nl ++ lit "after"))
    by exact (first_split_from_indexOf START_MARKER marked_file 7 eq_refl).
  assert (H2 : first_split END_MARKER marked_file
                 (lit "before" ++ nl ++ START_MARKER ++ nl ++ lit "OLD" ++ nl)
                 (nl ++ lit "after"))
    by exact (first_split_from_indexOf END_MARKER marked_file 38 eq_refl).
  split; [exact H1 | split; [exact H2 |]].
  rewrite (C1_markers_replace_region (lit "adr") sample_cfg [] marked_file _ _ _ _ H1 H2).
  reflexivity.
Defined.

(** C2 (defect): the synchronizer is not idempotent on an index whose end
    marker is missing. The first run appends a second start marker and a
    full region; the second run pairs the original start marker with the new
    end marker, so the text after the original start marker is dropped. *)
Theorem C2_lone_start_marker_drifts :
  sync_twice (lit "adr") sample_cfg [] (IndexPresent lone_start_file) =
  Some (lone_start_file ++ nl ++ nl ++ wrap_region NO_DOCS,
        lit "Intro" ++ nl ++ wrap_region NO_DOCS) /\
  lone_start_file ++ nl ++ nl ++ wrap_region NO_DOCS <>
  lit "Intro" ++ nl ++ wrap_region NO_DOCS.
Proof.
  split; [vm_compute; reflexivity|].
  intros E. apply (f_equal (@List.length ascii)) in E.
  vm_compute in E. discriminate.
Qed.

(** C8, counterexample: the existing content of an index without markers is
    not kept as it is: [unmarked_file] ends in three line feeds and the
    written file does not start with it. *)
Lemma C8_unmarked_content_is_trimmed :
  updateIndexFile (lit "adr") sample_cfg [] (IndexPresent unmarked_file) =
  Some (lit "Intro" ++ nl ++ nl ++ wrap_region NO_DOCS) /\
  starts_with unmarked_file (lit "Intro" ++ nl ++ nl ++ wrap_region NO_DOCS) = false.
Proof. split; vm_compute; reflexivity. Qed.

(** C8, as the code does it: for an existing index lacking the start or the
    end marker, the written content is the existing content with its leading
    and trailing whitespace removed ([trim]), a blank line, and the wrapped
    region; the existing content is that trimmed text between whitespace. *)
Theorem C8_unmarked_append_after_trim (typePath : jsstr) (cfg : IndexingConfig)
  (listing : Listing) (s : jsstr) :
  indexOf START_MARKER s = None \/ indexOf END_MARKER s = None ->
  updateIndexFile typePath cfg listing (IndexPresent s) =
  option_map (fun region => js_trim s ++ nl ++ nl ++ region) (region_of cfg listing) /\
  exists lead trail, s = lead ++ js_trim s ++ trail /\ all_ws lead /\ all_ws trail.
Proof.
  intros Hnone. split; [|apply js_trim_split].
  unfold updateIndexFile, region_of.
  destruct (read_all _) as [documents|]; [|reflexivity].
  unfold option_map, merge_existing.
  destruct Hnone as [H | H]; rewrite H; [reflexivity|].
  destruct (indexOf START_MARKER s); reflexivity.
Qed.

Lemma C8_witness :
  (indexOf START_MARKER unmarked_file = None \/ indexOf END_MARKER unmarked_file = None) /\
  updateIndexFile (lit "adr") sample_cfg [] (IndexPresent unmarked_file) =
  Some (js_trim unmarked_file ++ nl ++ nl ++ wrap_region NO_DOCS).
Proof.
  assert (H : indexOf START_MARKER unmarked_file = None \/
              indexOf END_MARKER unmarked_file = None) by (left; vm_compute; reflexivity).
  split; [exact H|].
  rewrite (proj1 (C8_unmarked_append_after_trim (lit "adr") sample_cfg [] unmarked_file H)).
  reflexivity.
Defined.

(** ** Ordering by id *)

(** The comparator on numeric ids. *)
Lemma sort_docs_numeric_ids :
  map doc_id (sort_docs [doc_id3; doc_id1; doc_id2]) =
    [Some (JNum 1); Some (JNum 2); Some (JNum 3)].
Proof. vm_compute. reflexivity. Qed.

(** With a string id among numbers the comparator is not a consistent order
    ([1 > "x"] and ["x" > 1] are both false), and the result is the one
    TimSort's binary insertion gives: ids [1, 3, "x", 2] in files [a], [b],
    [c], [d] come out as [c, a, d, b]. *)
Lemma sort_docs_mixed_ids :
  map filename (sort_docs
    [doc_id1; {| filename := lit "b.md"; frontmatter := [(lit "id", JNum 3)] |}; doc_idx;
     {| filename := lit "d.md"; frontmatter := [(lit "id", JNum 2)] |}]) =
  [lit "c.md"; lit "a.md"; lit "d.md"; lit "b.md"].
Proof. vm_compute. reflexivity. Qed.

(** C7, as the code does it: the test [documents.every((d) => d.frontmatter.id)]
    is one of truthiness, so one document whose id is falsy leaves all the
    documents in listing order: an absent or [null] id, but also an id that
    is present and non-null, such as [0], [false] or [""]. *)
Theorem C7_zero_id_disables_sort (documents : list DocumentIndexInfo) (d : DocumentIndexInfo) :
  In d documents -> truthy (doc_id d) = false -> order_documents documents = documents.
Proof.
  intros Hin Hd. unfold order_documents.
  destruct (forallb (fun d => truthy (doc_id d)) documents) eqn:F; [|reflexivity].
  rewrite forallb_forall in F. rewrite (F d Hin) in Hd. discriminate.
Qed.

Lemma C7_witness :
  map doc_id [doc_id2; doc_id0; doc_id3] = [Some (JNum 2); Some (JNum 0); Some (JNum 3)] /\
  In doc_id0 [doc_id2; doc_id0; doc_id3] /\ truthy (doc_id doc_id0) = false /\
  order_documents [doc_id2; doc_id0; doc_id3] = [doc_id2; doc_id0; doc_id3].
Proof.
  assert (Hin : In doc_id0 [doc_id2; doc_id0; doc_id3]) by (right; left; reflexivity).
  assert (Hd : truthy (doc_id doc_id0) = false) by reflexivity.
  split; [reflexivity|]. split; [exact Hin|]. split; [exact Hd|].
  exact (C7_zero_id_disables_sort [doc_id2; doc_id0; doc_id3] doc_id0 Hin Hd).
Defined.

(** ** The validation loop *)

Lemma str_eqb_eq (a b : jsstr) : str_eqb a b = true <-> a = b.
Proof.
  revert b; induction a as [|c a IH]; intros [|d b]; simpl;
    try (split; [discriminate | intros E; discriminate E]); [tauto|].
  rewrite andb_true_iff, IH, Ascii.eqb_eq. split.
  - intros [-> ->]; reflexivity.
  - intros E; injection E as -> ->; tauto.
Qed.

Lemma str_eqb_refl (a : jsstr) : str_eqb a a = true.
Proof. apply str_eqb_eq; reflexivity. Qed.

Lemma fold_run (shape : list (jsstr * ZodType)) (l : Listing) (st : VState) :
  verrors (fold_left (validate_step shape) l st) =
    verrors st ++ fst (run_from shape (vmaps st) l) /\
  vmaps (fold_left (validate_step shape) l st) = snd (run_from shape (vmaps st) l).
Proof.
  revert st; induction l as [|e l IH]; intros st; simpl.
  - rewrite app_nil_r; split; reflexivity.
  - destruct (IH (validate_step shape st e)) as [H1 H2]. rewrite H1, H2.
    unfold validate_step.
    destruct (process_file shape (vmaps st) e) as [[counted errs] maps']. simpl.
    destruct (run_from shape maps' l) as [errs2 maps2]; simpl.
    rewrite app_assoc; split; reflexivity.
Qed.

Lemma validate_errors (schema : FrontmatterSchema) (files : Listing) :
  snd (validateDocType schema files) =
  fst (run_from (buildZodSchema schema) (initial_maps schema) files).
Proof.
  unfold validateDocType. simpl.
  rewrite (proj1 (fold_run _ _ _)). reflexivity.
Qed.

Lemma run_from_app (shape : list (jsstr * ZodType)) (maps : UniqueMaps) (l1 l2 : Listing) :
  run_from shape maps (l1 ++ l2) =
  (fst (run_from shape maps l1) ++ fst (run_from shape (snd (run_from shape maps l1)) l2),
   snd (run_from shape (snd (run_from shape maps l1)) l2)).
Proof.
  revert maps; induction l1 as [|e l1 IH]; intros maps; simpl.
  - destruct (run_from shape maps l2); reflexivity.
  - destruct (process_file shape maps e) as [[c errs] maps'].
    rewrite IH. destruct (run_from shape maps' l1) as [e1 m1]; simpl.
    rewrite app_assoc. reflexivity.
Qed.

Lemma run_from_cons_snd (shape : list (jsstr * ZodType)) (maps maps' : UniqueMaps)
  (x : jsstr * option FM) (l : Listing) (c : bool) (errs : list ValidationError) :
  process_file shape maps x = (c, errs, maps') ->
  snd (run_from shape maps (x :: l)) = snd (run_from shape maps' l).
Proof. intros H. simpl. rewrite H. destruct (run_from shape maps' l); reflexivity. Qed.

(** An error of a run was pushed by one iteration. *)
Lemma run_from_in (shape : list (jsstr * ZodType)) (maps : UniqueMaps) (l : Listing)
  (e : ValidationError) :
  In e (fst (run_from shape maps l)) ->
  exists l1 x l2, l = l1 ++ x :: l2 /\
    In e (snd (fst (process_file shape (snd (run_from shape maps l1)) x))).
Proof.
  revert maps; induction l as [|x l IH]; intros maps H; simpl in H; [contradiction|].
  destruct (process_file shape maps x) as [[c errs] maps'] eqn:Ep.
  destruct (run_from shape maps' l) as [errs2 maps2] eqn:Er. simpl in H.
  apply in_app_or in H as [H | H].
  - exists [], x, l; split; [reflexivity|]. simpl. rewrite Ep. exact H.
  - assert (H' : In e (fst (run_from shape maps' l))) by (rewrite Er; exact H).
    destruct (IH maps' H') as [l1 [y [l2 [-> Hy]]]].
    exists (x :: l1), y, l2; split; [reflexivity|].
    rewrite (run_from_cons_snd shape maps maps' x l1 c errs Ep). exact Hy.
Qed.

(** The iteration of a listed entry pushes its errors into the run. *)
Lemma run_from_push (shape : list (jsstr * ZodType)) (maps : UniqueMaps)
  (l1 l2 : Listing) (x : jsstr * option FM) (e : ValidationError) :
  In e (snd (fst (process_file shape (snd (run_from shape maps l1)) x))) ->
  In e (fst (run_from shape maps (l1 ++ x :: l2))).
Proof.
  intros H. rewrite run_from_app. simpl.
  destruct (process_file shape (snd (run_from shape maps l1)) x) as [[c errs] maps'].
  destruct (run_from shape maps' l2). simpl in *.
  apply in_or_app; right; apply in_or_app; left; exact H.
Qed.

Lemma buildZodSchema_keys (schema : FrontmatterSchema) :
  map fst (buildZodSchema schema) = map fst schema.
Proof. unfold buildZodSchema. rewrite map_map. reflexivity. Qed.

Lemma existsb_str_eqb_false (k : jsstr) (keys : list jsstr) :
  ~ In k keys -> existsb (str_eqb k) keys = false.
Proof.
  intros H. destruct (existsb (str_eqb k) keys) eqn:E; [|reflexivity].
  apply existsb_exists in E as [k' [Hin Hk]]. apply str_eqb_eq in Hk; subst k'.
  contradiction.
Qed.

Lemma is_md_file_process (file : jsstr) :
  is_md_file file = true ->
  negb (ends_with (lit ".md") file) && negb (ends_with (lit ".mdx") file) = false.
Proof.
  unfold is_md_file. intros H. rewrite <- negb_orb, H. reflexivity.
Qed.

(** The strict object parse reports every key of the data absent from the shape. *)
Lemma parse_object_unknown (owner : jsstr) (shape : list (jsstr * ZodType)) (data : FM)
  (k : jsstr) (v : jsval) :
  In (k, v) data -> existsb (str_eqb k) (map fst shape) = false ->
  exists keys, In k keys /\
    In {| ipath := []; icode := UnrecognizedKeys keys |} (fst (parse_object owner shape data)).
Proof.
  intros Hin Hk. unfold parse_object.
  destruct (parse_fields owner data shape 0) as [issues out].
  remember (map fst (filter (fun e => negb (existsb (str_eqb (fst e)) (map fst shape))) data))
    as extra eqn:Ex.
  assert (Hx : In k extra).
  { subst extra. apply in_map_iff. exists (k, v). split; [reflexivity|].
    apply filter_In. split; [exact Hin|]. simpl. rewrite Hk. reflexivity. }
  destruct extra as [|k0 ks]; [contradiction|].
  exists (k0 :: ks). split; [exact Hx|]. simpl.
  apply in_or_app; right; left; reflexivity.
Qed.

Lemma process_file_invalid (shape : list (jsstr * ZodType)) (maps : UniqueMaps)
  (file : jsstr) (data : FM) :
  is_md_file file = true -> fst (parse_object file shape data) <> [] ->
  process_file shape maps (file, Some data) =
  (true, [InvalidFrontmatter file (fst (parse_object file shape data))], maps).
Proof.
  intros Hmd Hne. unfold process_file. rewrite (is_md_file_process file Hmd).
  destruct (parse_object file shape data) as [issues out]. simpl in Hne.
  destruct issues; [contradiction | reflexivity].
Qed.

(** ** Closed schemas *)

(** C4: a document whose front matter has a key the schema does not declare
    gets an [InvalidFrontmatter] error carrying an [unrecognized_keys] issue
    that names the key, whatever its value. *)
Theorem C4_unknown_key_rejected (schema : FrontmatterSchema) (files : Listing)
  (file : jsstr) (data : FM) (k : jsstr) (v : jsval) :
  In (file, Some data) files -> is_md_file file = true ->
  In (k, v) data -> ~ In k (map fst schema) ->
  exists issues keys,
    In (InvalidFrontmatter file issues) (snd (validateDocType schema files)) /\
    In {| ipath := []; icode := UnrecognizedKeys keys |} issues /\ In k keys.
Proof.
  intros Hf Hmd Hkv Hk.
  assert (Hk' : existsb (str_eqb k) (map fst (buildZodSchema schema)) = false)
    by (rewrite buildZodSchema_keys; apply existsb_str_eqb_false; exact Hk).
  destruct (parse_object_unknown file (buildZodSchema schema) data k v Hkv Hk')
    as [keys [Hin Hiss]].
  exists (fst (parse_object file (buildZodSchema schema) data)), keys.
  split; [|split; assumption].
  rewrite validate_errors.
  apply in_split in Hf as [l1 [l2 ->]].
  apply run_from_push.
  rewrite process_file_invalid; [left; reflexivity | exact Hmd |].
  intros E. rewrite E in Hiss. contradiction.
Qed.

(** ** The uniqueness maps *)

Lemma map_get_in (m : ValueMap) (v : PVal) (g : jsstr) :
  map_get m v = Some g -> exists v', In (v', g) m /\ same_value_zero v' v = true.
Proof.
  induction m as [|[k f] m IH]; simpl; [discriminate|].
  destruct (same_value_zero k v) eqn:E.
  - intros H; injection H as <-. exists k; split; [left; reflexivity | exact E].
  - intros H. destruct (IH H) as [v' [Hin Hv]]. exists v'; split; [right |]; assumption.
Qed.

Lemma check_unique_dup (file : jsstr) (out : list (jsstr * PVal)) (maps : UniqueMaps)
  (k f g : jsstr) :
  In (DuplicateUnique k f g) (fst (check_unique file out maps)) ->
  f = file /\ exists m v, In (k, m) maps /\ lookup_out k out = Some v /\ map_get m v = Some g.
Proof.
  induction maps as [|[kk vm] maps IH]; simpl; [contradiction|].
  destruct (check_unique file out maps) as [errs maps''] eqn:E. simpl in IH.
  destruct (lookup_out kk out) as [value|] eqn:Hl.
  - destruct (map_get vm value) as [first|] eqn:Hg; simpl.
    + intros [H | H].
      * injection H as <- <- <-. split; [reflexivity|].
        exists vm, value; split; [left; reflexivity | split; assumption].
      * destruct (IH H) as [Hf [m [v [Hin Hr]]]].
        split; [exact Hf|]. exists m, v; split; [right; exact Hin | exact Hr].
    + intros H. destruct (IH H) as [Hf [m [v [Hin Hr]]]].
      split; [exact Hf|]. exists m, v; split; [right; exact Hin | exact Hr].
  - simpl. intros H. destruct (IH H) as [Hf [m [v [Hin Hr]]]].
    split; [exact Hf|]. exists m, v; split; [right; exact Hin | exact Hr].
Qed.

Lemma check_unique_maps (file : jsstr) (out : list (jsstr * PVal)) (maps : UniqueMaps)
  (k : jsstr) (m' : ValueMap) :
  In (k, m') (snd (check_unique file out maps)) ->
  exists m, In (k, m) maps /\
    (m' = m \/ exists v, lookup_out k out = Some v /\ m' = m ++ [(v, file)]).
Proof.
  induction maps as [|[kk vm] maps IH]; simpl; [contradiction|].
  destruct (check_unique file out maps) as [errs maps''] eqn:E. simpl in IH.
  assert (Hrest : In (k, m') maps'' ->
                  exists m, ((kk, vm) = (k, m) \/ In (k, m) maps) /\
                    (m' = m \/ exists v, lookup_out k out = Some v /\ m' = m ++ [(v, file)])).
  { intros H. destruct (IH H) as [m [Hin Hm]]. exists m; split; [right |]; assumption. }
  destruct (lookup_out kk out) as [value|] eqn:Hl.
  - destruct (map_get vm value) as [first|] eqn:Hg; simpl.
    + intros [H | H]; [|exact (Hrest H)].
      injection H as <- <-. exists vm; split; [left; reflexivity | left; reflexivity].
    + intros [H | H]; [|exact (Hrest H)].
      injection H as <- <-. exists vm; split; [left; reflexivity|].
      right; exists value; split; [exact Hl | reflexivity].
  - simpl. intros [H | H]; [|exact (Hrest H)].
    injection H as <- <-. exists vm; split; [left; reflexivity | left; reflexivity].
Qed.

(** What one iteration does: a rejected entry pushes no duplicate and leaves
    the maps; an accepted one runs [check_unique]. *)
Lemma process_file_cases (shape : list (jsstr * ZodType)) (maps : UniqueMaps)
  (x : jsstr * option FM) :
  (snd (process_file shape maps x) = maps /\
   forall k f g, ~ In (DuplicateUnique k f g) (snd (fst (process_file shape maps x)))) \/
  exists data out,
    snd x = Some data /\ is_md_file (fst x) = true /\
    parse_object (fst x) shape data = ([], out) /\
    snd (fst (process_file shape maps x)) = fst (check_unique (fst x) out maps) /\
    snd (process_file shape maps x) = snd (check_unique (fst x) out maps).
Proof.
  destruct x as [file content]. unfold process_file.
  destruct (negb (ends_with (lit ".md") file) && negb (ends_with (lit ".mdx") file)) eqn:Emd.
  - left; split; [reflexivity | intros k f g []].
  - destruct content as [data|].
    + destruct (parse_object file shape data) as [issues out] eqn:Ep.
      destruct issues as [|i is].
      * right. exists data, out. split; [reflexivity|]. split.
        { unfold is_md_file. simpl. rewrite <- negb_orb in Emd.
          apply negb_false_iff in Emd. exact Emd. }
        split; [exact Ep|]. simpl.
        destruct (check_unique file out maps); split; reflexivity.
      * left; split; [reflexivity|]. intros k f g [H | []]; discriminate.
    + left; split; [reflexivity|]. intros k f g [H | []]; discriminate.
Qed.

(** A property of file names that holds of every accepted entry of a run is
    kept by the maps, and holds of both files of every duplicate. *)
Lemma run_from_inv (P : jsstr -> Prop) (shape : list (jsstr * ZodType))
  (maps : UniqueMaps) (l : Listing) :
  (forall k m v g, In (k, m) maps -> In (v, g) m -> P g) ->
  (forall f data, In (f, Some data) l -> is_md_file f = true ->
     fst (parse_object f shape data) = [] -> P f) ->
  (forall k m v g, In (k, m) (snd (run_from shape maps l)) -> In (v, g) m -> P g) /\
  (forall k f g, In (DuplicateUnique k f g) (fst (run_from shape maps l)) -> P f /\ P g).
Proof.
  revert maps; induction l as [|x l IH]; intros maps Hm Hl.
  - split; [exact Hm | intros k f g []].
  - destruct (process_file shape maps x) as [[c errs] maps'] eqn:Ep.
    assert (Hm' : forall k m v g, In (k, m) maps' -> In (v, g) m -> P g).
    { destruct (process_file_cases shape maps x)
        as [[Hs _] | [data [out [Hx [Hmd [Hpo [He Hs]]]]]]];
        rewrite Ep in *; simpl in *.
      - subst maps'. exact Hm.
      - subst maps'. intros k m v g Hin Hvg.
        destruct (check_unique_maps _ _ _ _ _ Hin) as [m0 [Hin0 [-> | [v0 [_ ->]]]]].
        + exact (Hm _ _ _ _ Hin0 Hvg).
        + apply in_app_or in Hvg as [Hvg | [Hvg | []]].
          * exact (Hm _ _ _ _ Hin0 Hvg).
          * injection Hvg as _ <-. destruct x as [f0 c0]; simpl in *; subst c0.
            apply (Hl f0 data); [left; reflexivity | exact Hmd | rewrite Hpo; reflexivity]. }
    assert (Hl' : forall f data, In (f, Some data) l -> is_md_file f = true ->
                  fst (parse_object f shape data) = [] -> P f)
      by (intros f data H; apply (Hl f data); right; exact H).
    destruct (IH maps' Hm' Hl') as [IH1 IH2].
    simpl. rewrite Ep.
    destruct (run_from shape maps' l) as [errs2 maps2] eqn:Er. simpl in *.
    split; [exact IH1|].
    intros k f g H. apply in_app_or in H as [H | H]; [|exact (IH2 k f g H)].
    destruct (process_file_cases shape maps x)
      as [[_ Hnd] | [data [out [Hx [Hmd [Hpo [He Hs]]]]]]];
      rewrite Ep in *; simpl in *.
    + exfalso; exact (Hnd k f g H).
    + subst errs. destruct (check_unique_dup _ _ _ _ _ _ H) as [-> [m [v [Hin [_ Hg]]]]].
      destruct (map_get_in _ _ _ Hg) as [v' [Hv' _]].
      split; [|exact (Hm _ _ _ _ Hin Hv')].
      destruct x as [f0 c0]; simpl in *; subst c0.
      apply (Hl f0 data); [left; reflexivity | exact Hmd | rewrite Hpo; reflexivity].
Qed.

Lemma initial_maps_empty (schema : FrontmatterSchema) (k : jsstr) (m : ValueMap) :
  In (k, m) (initial_maps schema) -> m = [].
Proof.
  unfold initial_maps. intros H. apply in_map_iff in H as [e [He _]].
  injection He as _ <-. reflexivity.
Qed.

Lemma process_file_rejected (shape : list (jsstr * ZodType)) (maps : UniqueMaps)
  (x : jsstr * option FM) :
  rejected_entry shape x ->
  snd (process_file shape maps x) = maps /\
  filter is_duplicate (snd (fst (process_file shape maps x))) = [].
Proof.
  destruct x as [file content]. unfold rejected_entry, process_file.
  cbn [fst snd]. intros Hr.
  destruct (negb (ends_with (lit ".md") file) && negb (ends_with (lit ".mdx") file)) eqn:Emd;
    [split; reflexivity|].
  destruct content as [data|]; [|split; reflexivity].
  destruct Hr as [Hmd | [Hn | [d [Hd Hne]]]].
  - unfold is_md_file in Hmd. rewrite <- negb_orb, Hmd in Emd. discriminate.
  - discriminate.
  - injection Hd as <-.
    destruct (parse_object file shape data) as [issues out]. simpl in Hne.
    destruct issues; [contradiction | split; reflexivity].
Qed.

(** ** Uniqueness and validity *)

(** C5, counterexample: [a.md] has a valid [id] but an invalid [title]; its
    [id] never enters the uniqueness map, so [c.md], with the same [id], gets
    no [DuplicateUnique] error. *)
Lemma C5_valid_field_of_invalid_doc_not_compared :
  fst (fst (zparse (lit "a.md") (field_validator id_field) [PKey (lit "id")]
                   (Some (JNum 1)) 0)) = [] /\
  validateDocType adr_schema bad_title_listing =
  (2, [InvalidFrontmatter (lit "a.md") [{| ipath := [PKey (lit "title")]; icode := InvalidType |}]]).
Proof. split; vm_compute; reflexivity. Qed.

(** C5, as the code does it: uniqueness is checked on whole documents.
    Removing a rejected entry (not Markdown, unreadable, or failing any field
    of the schema) from the listing changes no [DuplicateUnique] error, and
    both files of every [DuplicateUnique] error passed the whole schema. *)
Theorem C5_uniqueness_only_for_valid_documents (schema : FrontmatterSchema) :
  (forall l1 bad l2, rejected_entry (buildZodSchema schema) bad ->
     filter is_duplicate (snd (validateDocType schema (l1 ++ bad :: l2))) =
     filter is_duplicate (snd (validateDocType schema (l1 ++ l2)))) /\
  (forall files k f g,
     In (DuplicateUnique k f g) (snd (validateDocType schema files)) ->
     accepted_file (buildZodSchema schema) files f /\
     accepted_file (buildZodSchema schema) files g).
Proof.
  split.
  - intros l1 bad l2 Hbad. rewrite !validate_errors, !run_from_app. simpl.
    destruct (process_file_rejected (buildZodSchema schema)
                (snd (run_from (buildZodSchema schema) (initial_maps schema) l1)) bad Hbad)
      as [Hm Hf].
    destruct (process_file (buildZodSchema schema)
                (snd (run_from (buildZodSchema schema) (initial_maps schema) l1)) bad)
      as [[c errs] maps'] eqn:Ep.
    simpl in Hm, Hf. subst maps'.
    destruct (run_from (buildZodSchema schema)
                (snd (run_from (buildZodSchema schema) (initial_maps schema) l1)) l2).
    simpl. rewrite !filter_app, Hf. reflexivity.
  - intros files k f g H. rewrite validate_errors in H.
    refine (proj2 (run_from_inv (accepted_file (buildZodSchema schema) files)
                     (buildZodSchema schema) (initial_maps schema) files _ _) k f g H).
    + intros k' m v g' Hin Hvg. rewrite (initial_maps_empty _ _ _ Hin) in Hvg. contradiction.
    + intros f' data Hin Hmd Hp. exists data; split; [|split]; assumption.
Qed.

Lemma C5_witness :
  rejected_entry (buildZodSchema adr_schema) (lit "b.md", Some [(lit "id", JNum 3)]) /\
  filter is_duplicate (snd (validateDocType adr_schema
    ([hd (lit "", None) dup_listing] ++ (lit "b.md", Some [(lit "id", JNum 3)]) ::
     tl dup_listing))) =
  [DuplicateUnique (lit "id") (lit "c.md") (lit "a.md")] /\
  accepted_file (buildZodSchema adr_schema) dup_listing (lit "c.md").
Proof.
  assert (Hr : rejected_entry (buildZodSchema adr_schema)
                 (lit "b.md", Some [(lit "id", JNum 3)])).
  { right; right. exists [(lit "id", JNum 3)]. split; [reflexivity|].
    vm_compute. discriminate. }
  split; [exact Hr|]. split.
  - rewrite (proj1 (C5_uniqueness_only_for_valid_documents adr_schema) _ _ _ Hr).
    vm_compute. reflexivity.
  - refine (proj1 (proj2 (C5_uniqueness_only_for_valid_documents adr_schema)
                    dup_listing (lit "id") (lit "c.md") (lit "a.md") _)).
    vm_compute. left; reflexivity.
Defined.

Lemma C4_witness :
  In (lit "a.md", Some typo_doc) [(lit "a.md", Some typo_doc)] /\
  is_md_file (lit "a.md") = true /\
  In (lit "titel", JStr (lit "typo")) typo_doc /\
  ~ In (lit "titel") (map fst adr_schema) /\
  exists issues keys,
    In (InvalidFrontmatter (lit "a.md") issues)
       (snd (validateDocType adr_schema [(lit "a.md", Some typo_doc)])) /\
    In {| ipath := []; icode := UnrecognizedKeys keys |} issues /\ In (lit "titel") keys.
Proof.
  assert (H1 : In (lit "a.md", Some typo_doc) [(lit "a.md", Some typo_doc)])
    by (left; reflexivity).
  assert (H2 : is_md_file (lit "a.md") = true) by reflexivity.
  assert (H3 : In (lit "titel", JStr (lit "typo")) typo_doc)
    by (right; right; left; reflexivity).
  assert (H4 : ~ In (lit "titel") (map fst adr_schema)).
  { intros H. simpl in H.
    destruct H as [H | [H | [H | []]]]; discriminate H. }
  split; [exact H1 | split; [exact H2 | split; [exact H3 | split; [exact H4 |]]]].
  exact (C4_unknown_key_rejected adr_schema _ _ _ _ _ H1 H2 H3 H4).
Defined.

(** ** Ordering of duplicates *)

Lemma same_value_zero_sym (a b : PVal) :
  same_value_zero a b = same_value_zero b a.
Proof.
  destruct a as [x|x|x|[o1 n1] i1], b as [y|y|y|[o2 n2] i2]; simpl; try reflexivity.
  - destruct (str_eqb x y) eqn:E, (str_eqb y x) eqn:F; try reflexivity;
      apply str_eqb_eq in E || apply str_eqb_eq in F; subst;
      rewrite str_eqb_refl in *; congruence.
  - apply Z.eqb_sym.
  - destruct x, y; reflexivity.
  - rewrite Nat.eqb_sym.
    destruct (str_eqb o1 o2) eqn:E, (str_eqb o2 o1) eqn:F; try reflexivity;
      apply str_eqb_eq in E || apply str_eqb_eq in F; subst;
      rewrite str_eqb_refl in *; congruence.
Qed.

Lemma same_value_zero_trans (a b c : PVal) :
  same_value_zero a b = true -> same_value_zero b c = true -> same_value_zero a c = true.
Proof.
  destruct a as [x|x|x|[o1 n1] i1], b as [y|y|y|[o2 n2] i2], c as [w|w|w|[o3 n3] i3];
    simpl; try discriminate.
  - rewrite !str_eqb_eq. congruence.
  - rewrite !Z.eqb_eq. congruence.
  - destruct x, y, w; simpl; congruence.
  - rewrite !andb_true_iff, !str_eqb_eq, !Nat.eqb_eq. intros [-> ->] [-> ->]. tauto.
Qed.

Lemma check_unique_map_of (file : jsstr) (out : list (jsstr * PVal)) (maps : UniqueMaps)
  (k : jsstr) :
  map_of k (snd (check_unique file out maps)) =
  option_map (fun m => match lookup_out k out with
                       | None => m
                       | Some v => match map_get m v with
                                   | Some _ => m
                                   | None => m ++ [(v, file)]
                                   end
                       end) (map_of k maps).
Proof.
  induction maps as [|[kk vm] maps IH]; simpl; [reflexivity|].
  destruct (check_unique file out maps) as [errs maps''] eqn:E. simpl in IH.
  destruct (str_eqb k kk) eqn:Ek.
  - apply str_eqb_eq in Ek; subst kk. simpl.
    destruct (lookup_out k out) as [value|]; [destruct (map_get vm value) eqn:Eg|];
      simpl; rewrite ?str_eqb_refl; simpl; rewrite ?Eg; reflexivity.
  - destruct (lookup_out kk out) as [value|];
      [destruct (map_get vm value)|]; simpl; rewrite Ek; exact IH.
Qed.

Lemma check_unique_dup_intro (file : jsstr) (out : list (jsstr * PVal)) (maps : UniqueMaps)
  (k g : jsstr) (m : ValueMap) (v : PVal) :
  map_of k maps = Some m -> lookup_out k out = Some v -> map_get m v = Some g ->
  In (DuplicateUnique k file g) (fst (check_unique file out maps)).
Proof.
  induction maps as [|[kk vm] maps IH]; simpl; [discriminate|].
  destruct (check_unique file out maps) as [errs maps''] eqn:E. simpl in IH.
  intros Hm Hl Hg.
  destruct (str_eqb k kk) eqn:Ek.
  - apply str_eqb_eq in Ek; subst kk. injection Hm as ->.
    rewrite Hl, Hg. left; reflexivity.
  - specialize (IH Hm Hl Hg).
    destruct (lookup_out kk out) as [value|];
      [destruct (map_get vm value)|]; simpl; auto.
Qed.

(** ** Default values *)














Lemma map_of_in (k : jsstr) (maps : UniqueMaps) (m : ValueMap) :
  map_of k maps = Some m -> In (k, m) maps.
Proof.
  induction maps as [|[kk vm] maps IH]; simpl; [discriminate|].
  destruct (str_eqb k kk) eqn:Ek.
  - apply str_eqb_eq in Ek; subst kk. intros H; injection H as ->. left; reflexivity.
  - intros H; right; exact (IH H).
Qed.

Lemma map_of_initial (schema : FrontmatterSchema) (k : jsstr) (fk : FrontmatterField) :
  In (k, fk) schema -> fk.(unique) = true -> map_of k (initial_maps schema) = Some [].
Proof.
  unfold initial_maps. induction schema as [|[kk f] schema IH]; simpl; [contradiction|].
  intros [H | H] Hu.
  - injection H as <- <-. rewrite Hu. simpl. rewrite str_eqb_refl. reflexivity.
  - destruct (unique f); simpl; [|exact (IH H Hu)].
    destruct (str_eqb k kk); [reflexivity | exact (IH H Hu)].
Qed.

Lemma map_get_none (m : ValueMap) (x : PVal) :
  (forall v g, In (v, g) m -> same_value_zero v x = false) -> map_get m x = None.
Proof.
  induction m as [|[v g] m IH]; simpl; intros H; [reflexivity|].
  rewrite (H v g (or_introl eq_refl)). apply IH. intros v' g' Hin. exact (H v' g' (or_intror Hin)).
Qed.

Lemma map_get_app (m1 m2 : ValueMap) (x : PVal) :
  map_get m1 x = None -> map_get (m1 ++ m2) x = map_get m2 x.
Proof.
  induction m1 as [|[v g] m1 IH]; simpl; [reflexivity|].
  destruct (same_value_zero v x); [discriminate | exact IH].
Qed.

Lemma process_file_accepted (shape : list (jsstr * ZodType)) (maps : UniqueMaps)
  (file : jsstr) (data : FM) (out : list (jsstr * PVal)) :
  is_md_file file = true -> parse_object file shape data = ([], out) ->
  process_file shape maps (file, Some data) =
  (true, fst (check_unique file out maps), snd (check_unique file out maps)).
Proof.
  intros Hmd Hp. unfold process_file. rewrite (is_md_file_process file Hmd), Hp.
  destruct (check_unique file out maps); reflexivity.
Qed.

Lemma run_from_snd_cons (shape : list (jsstr * ZodType)) (maps : UniqueMaps)
  (x : jsstr * option FM) (l : Listing) :
  snd (run_from shape maps (x :: l)) = snd (run_from shape (snd (process_file shape maps x)) l).
Proof.
  simpl. destruct (process_file shape maps x) as [[c errs] maps']. simpl.
  destruct (run_from shape maps' l); reflexivity.
Qed.

(** The value map of a field only grows during a run. *)
Lemma run_from_map_of_grows (shape : list (jsstr * ZodType)) (maps : UniqueMaps)
  (l : Listing) (k : jsstr) (m : ValueMap) :
  map_of k maps = Some m ->
  exists m', map_of k (snd (run_from shape maps l)) = Some (m ++ m').
Proof.
  revert maps m; induction l as [|x l IH]; intros maps m Hm.
  - exists []. rewrite app_nil_r. exact Hm.
  - rewrite run_from_snd_cons.
    assert (Hx : exists m1, map_of k (snd (process_file shape maps x)) = Some (m ++ m1)).
    { destruct (process_file_cases shape maps x)
        as [[Hs _] | [data [out [_ [_ [_ [_ Hs]]]]]]]; rewrite Hs.
      - exists []. rewrite app_nil_r. exact Hm.
      - rewrite check_unique_map_of, Hm. simpl.
        destruct (lookup_out k out) as [v|]; [destruct (map_get m v)|].
        + exists []; rewrite app_nil_r; reflexivity.
        + exists [(v, fst x)]; reflexivity.
        + exists []; rewrite app_nil_r; reflexivity. }
    destruct Hx as [m1 Hm1]. destruct (IH _ _ Hm1) as [m2 Hm2].
    exists (m1 ++ m2). rewrite app_assoc. exact Hm2.
Qed.

(** A property of the entries [(v, g)] of the map of field [k] that holds of
    the maps a run starts from, and of the value of [k] of every accepted
    entry [g] of the listing, holds of the maps the run ends with. *)
Lemma run_from_entries (Q : jsstr -> PVal -> jsstr -> Prop) (shape : list (jsstr * ZodType))
  (maps : UniqueMaps) (l : Listing) :
  (forall k m v g, In (k, m) maps -> In (v, g) m -> Q k v g) ->
  (forall f data out k v, In (f, Some data) l -> is_md_file f = true ->
     parse_object f shape data = ([], out) -> lookup_out k out = Some v -> Q k v f) ->
  forall k m v g, In (k, m) (snd (run_from shape maps l)) -> In (v, g) m -> Q k v g.
Proof.
  revert maps; induction l as [|x l IH]; intros maps Hm Hl; [exact Hm|].
  rewrite run_from_snd_cons. apply IH.
  - destruct (process_file_cases shape maps x)
      as [[Hs _] | [data [out [Hx [Hmd [Hpo [_ Hs]]]]]]]; rewrite Hs; [exact Hm|].
    intros k m v g Hin Hvg.
    destruct (check_unique_maps _ _ _ _ _ Hin) as [m0 [Hin0 [-> | [v0 [Hl0 ->]]]]].
    + exact (Hm _ _ _ _ Hin0 Hvg).
    + apply in_app_or in Hvg as [Hvg | [Hvg | []]].
      * exact (Hm _ _ _ _ Hin0 Hvg).
      * injection Hvg as -> <-. destruct x as [f0 c0]; simpl in *; subst c0.
        exact (Hl f0 data out k v (or_introl eq_refl) Hmd Hpo Hl0).
  - intros f data out k v Hin. exact (Hl f data out k v (or_intror Hin)).
Qed.

Lemma run_from_snd_app (shape : list (jsstr * ZodType)) (maps : UniqueMaps) (l1 l2 : Listing) :
  snd (run_from shape maps (l1 ++ l2)) = snd (run_from shape (snd (run_from shape maps l1)) l2).
Proof. rewrite run_from_app. reflexivity. Qed.

(** C6: every [DuplicateUnique] error is attributed to a listed file and
    names a file listed before it; and when accepted documents [a] and then
    [c] carry SameValueZero-equal values of a unique field, with no accepted
    document before [a] carrying such a value, the error names [c] as the
    duplicate and [a] as the first occurrence. *)
Theorem C6_duplicate_attributed_to_later_file (schema : FrontmatterSchema) :
  (forall files k f g,
     In (DuplicateUnique k f g) (snd (validateDocType schema files)) ->
     exists l1 c l2, files = l1 ++ (f, c) :: l2 /\ In g (map fst l1)) /\
  (forall l1 l2 l3 a da c dc k fk outA outC vA vC,
     In (k, fk) schema -> fk.(unique) = true ->
     is_md_file a = true -> is_md_file c = true ->
     parse_object a (buildZodSchema schema) da = ([], outA) ->
     parse_object c (buildZodSchema schema) dc = ([], outC) ->
     lookup_out k outA = Some vA -> lookup_out k outC = Some vC ->
     same_value_zero vA vC = true ->
     (forall f d out v, In (f, Some d) l1 -> is_md_file f = true ->
        parse_object f (buildZodSchema schema) d = ([], out) ->
        lookup_out k out = Some v -> same_value_zero v vC = false) ->
     In (DuplicateUnique k c a)
        (snd (validateDocType schema (l1 ++ (a, Some da) :: l2 ++ (c, Some dc) :: l3)))).
Proof.
  set (shape := buildZodSchema schema). split.
  - intros files k f g H. rewrite validate_errors in H. fold shape in H.
    destruct (run_from_in _ _ _ _ H) as [l1 [x [l2 [-> Hx]]]].
    destruct (process_file_cases shape (snd (run_from shape (initial_maps schema) l1)) x)
      as [[_ Hnd] | [data [out [_ [_ [_ [He _]]]]]]]; [exfalso; exact (Hnd _ _ _ Hx)|].
    rewrite He in Hx.
    destruct (check_unique_dup _ _ _ _ _ _ Hx) as [Hf [m [v [Hin [_ Hg]]]]].
    destruct (map_get_in _ _ _ Hg) as [v' [Hv' _]].
    exists l1, (snd x), l2. split.
    + rewrite Hf. destruct x; reflexivity.
    + refine (proj1 (run_from_inv (fun g => In g (map fst l1)) shape (initial_maps schema) l1
                       _ _) _ _ _ _ Hin Hv').
      * intros k' m' v'' g' Hk Hm. rewrite (initial_maps_empty _ _ _ Hk) in Hm. contradiction.
      * intros f' data' Hf' _ _. apply in_map_iff. exists (f', Some data'); split; auto.
  - intros l1 l2 l3 a da c dc k fk outA outC vA vC Hk Hu Hmda Hmdc Hpa Hpc Hla Hlc Hac Hfirst.
    rewrite validate_errors. fold shape.
    set (M1 := snd (run_from shape (initial_maps schema) l1)).
    destruct (run_from_map_of_grows shape (initial_maps schema) l1 k []
                (map_of_initial schema k fk Hk Hu)) as [m1 Hm1].
    simpl in Hm1. fold M1 in Hm1.
    assert (Hent : forall v g, In (v, g) m1 -> same_value_zero v vC = false).
    { intros v g Hvg.
      refine (run_from_entries (fun k' v g => k' = k -> same_value_zero v vC = false)
                shape (initial_maps schema) l1 _ _ k m1 v g (map_of_in _ _ _ Hm1) Hvg eq_refl).
      - intros k' m v' g' Hin Hm. rewrite (initial_maps_empty _ _ _ Hin) in Hm. contradiction.
      - intros f d out k' v' Hin Hmd Hp Hl ->. exact (Hfirst f d out v' Hin Hmd Hp Hl). }
    assert (HgC : map_get m1 vC = None) by (apply map_get_none; exact Hent).
    assert (HgA : map_get m1 vA = None).
    { apply map_get_none. intros v g Hvg.
      destruct (same_value_zero v vA) eqn:E; [|reflexivity].
      pose proof (same_value_zero_trans _ _ _ E Hac) as F. rewrite (Hent v g Hvg) in F.
      discriminate F. }
    assert (HM2 : map_of k (snd (process_file shape M1 (a, Some da))) = Some (m1 ++ [(vA, a)])).
    { rewrite (process_file_accepted shape M1 a da outA Hmda Hpa). simpl.
      rewrite check_unique_map_of, Hm1. simpl. rewrite Hla, HgA. reflexivity. }
    destruct (run_from_map_of_grows shape _ l2 k _ HM2) as [m2 Hm2].
    replace (l1 ++ (a, Some da) :: l2 ++ (c, Some dc) :: l3)
      with ((l1 ++ (a, Some da) :: l2) ++ (c, Some dc) :: l3)
      by (rewrite <- app_assoc; reflexivity).
    apply run_from_push.
    rewrite (process_file_accepted shape _ c dc outC Hmdc Hpc). simpl.
    apply (check_unique_dup_intro c outC _ k a ((m1 ++ [(vA, a)]) ++ m2) vC).
    + rewrite run_from_snd_app, run_from_snd_cons. fold M1. exact Hm2.
    + exact Hlc.
    + rewrite <- app_assoc, map_get_app by exact HgC. simpl. rewrite Hac. reflexivity.
Qed.

Lemma C6_witness :
  In (DuplicateUnique (lit "id") (lit "c.md") (lit "a.md"))
     (snd (validateDocType adr_schema dup_listing)) /\
  exists l1 c l2, dup_listing = l1 ++ (lit "c.md", c) :: l2 /\ In (lit "a.md") (map fst l1).
Proof.
  assert (H : In (DuplicateUnique (lit "id") (lit "c.md") (lit "a.md"))
                 (snd (validateDocType adr_schema dup_listing))).
  { exact (proj2 (C6_duplicate_attributed_to_later_file adr_schema)
      [] [(lit "b.md", Some [(lit "id", JNum 3); (lit "title", JStr (lit "B"))])] []
      (lit "a.md") [(lit "id", JNum 1); (lit "title", JStr (lit "A"));
                    (lit "status", JStr (lit "proposed"))]
      (lit "c.md") [(lit "id", JNum 1); (lit "title", JStr (lit "C"));
                    (lit "status", JStr (lit "accepted"))]
      (lit "id") id_field
      [(lit "id", PNum 1); (lit "title", PStr (lit "A")); (lit "status", PStr (lit "proposed"))]
      [(lit "id", PNum 1); (lit "title", PStr (lit "C")); (lit "status", PStr (lit "accepted"))]
      (PNum 1) (PNum 1)
      (or_introl eq_refl) eq_refl eq_refl eq_refl
      ltac:(vm_compute; reflexivity) ltac:(vm_compute; reflexivity)
      eq_refl eq_refl eq_refl
      (fun f d out v (Hin : In (f, Some d) []) _ _ _ => match Hin with end)). }
  split; [exact H|].
  exact (proj1 (C6_duplicate_attributed_to_later_file adr_schema) _ _ _ _ H).
Defined.

(** ** Array values and identity *)

Lemma parse_fields_lookup (owner : jsstr) (data : FM) (sh : list (jsstr * ZodType)) (n : nat)
  (k : jsstr) (v : PVal) :
  lookup_out k (snd (parse_fields owner data sh n)) = Some v ->
  exists t n1 is n2, In (k, t) sh /\ zparse owner t [PKey k] (fm_get k data) n1 = (is, Some v, n2).
Proof.
  revert n; induction sh as [|[kk t] sh IH]; intros n; simpl; [discriminate|].
  destruct (zparse owner t [PKey kk] (fm_get kk data) n) as [[is1 r] n1] eqn:Ez.
  specialize (IH n1).
  destruct (parse_fields owner data sh n1) as [is2 out] eqn:Ep. simpl in *.
  destruct r as [p|]; simpl.
  - destruct (str_eqb k kk) eqn:Ek.
    + apply str_eqb_eq in Ek; subst kk. intros H; injection H as ->.
      exists t, n, is1, n1. split; [left; reflexivity | exact Ez].
    + intros H. destruct (IH H) as [t' [m1 [is [m2 [Hin Hz]]]]].
      exists t', m1, is, m2. split; [right; exact Hin | exact Hz].
  - intros H. destruct (IH H) as [t' [m1 [is [m2 [Hin Hz]]]]].
    exists t', m1, is, m2. split; [right; exact Hin | exact Hz].
Qed.

Lemma parse_object_out (owner : jsstr) (shape : list (jsstr * ZodType)) (data : FM) :
  snd (parse_object owner shape data) = snd (parse_fields owner data shape 0).
Proof.
  unfold parse_object. destruct (parse_fields owner data shape 0) as [issues out].
  destruct (map fst _); reflexivity.
Qed.

(** Every array a parse returns is a fresh object allocated by that parse. *)
Lemma zparse_array_owner (owner : jsstr) (item : ZodType) (path : list PathSeg)
  (v : option jsval) (n : nat) (is : list Issue) (p : PVal) (n' : nat) :
  zparse owner (ZodArray item) path v n = (is, Some p, n') ->
  exists m items, p = PArr (owner, m) items.
Proof.
  simpl. destruct v as [[|b|z|s|l|o]|]; try discriminate.
  match goal with |- match ?e with _ => _ end = _ -> _ => destruct e as [[is0 items] n0] end.
  intros H; injection H as _ <- _. exists n, items; reflexivity.
Qed.

Lemma zparse_optional_some (owner : jsstr) (t : ZodType) (path : list PathSeg)
  (x : jsval) (n : nat) :
  zparse owner (ZodOptional t) path (Some x) n = zparse owner t path (Some x) n.
Proof. reflexivity. Qed.

Lemma field_validator_array_owner (owner : jsstr) (f : FrontmatterField) (path : list PathSeg)
  (v : option jsval) (n : nat) (is : list Issue) (p : PVal) (n' : nat) :
  f.(isArray) = true ->
  zparse owner (field_validator f) path v n = (is, Some p, n') ->
  exists m items, p = PArr (owner, m) items.
Proof.
  intros Ha. unfold field_validator. rewrite Ha.
  destruct (required f).
  - apply zparse_array_owner.
  - destruct v as [x|]; [|simpl; discriminate].
    intros H. rewrite zparse_optional_some in H. exact (zparse_array_owner _ _ _ _ _ _ _ _ H).
Qed.

Lemma nodup_assoc {A B : Type} (l : list (A * B)) (k : A) (a b : B) :
  NoDup (map fst l) -> In (k, a) l -> In (k, b) l -> a = b.
Proof.
  induction l as [|[k' x] l IH]; simpl; [contradiction|].
  intros Hnd. inversion Hnd as [|? ? Hnin Hnd']; subst.
  intros [Ha | Ha] [Hb | Hb].
  - congruence.
  - injection Ha as -> ->. exfalso. apply Hnin. apply in_map_iff. exists (k, b); auto.
  - injection Hb as -> ->. exfalso. apply Hnin. apply in_map_iff. exists (k, a); auto.
  - exact (IH Hnd' Ha Hb).
Qed.

Lemma buildZodSchema_in (schema : FrontmatterSchema) (k : jsstr) (t : ZodType) :
  In (k, t) (buildZodSchema schema) -> exists f, In (k, f) schema /\ t = field_validator f.
Proof.
  unfold buildZodSchema. intros H. apply in_map_iff in H as [[k' f] [He Hin]].
  injection He as <- <-. exists f; split; [exact Hin | reflexivity].
Qed.

(** The value of an array field in a parse of a document is an array owned by
    that document. *)
Lemma array_field_owner (schema : FrontmatterSchema) (owner : jsstr) (data : FM)
  (k : jsstr) (fk : FrontmatterField) (v : PVal) :
  NoDup (map fst schema) -> In (k, fk) schema -> fk.(isArray) = true ->
  lookup_out k (snd (parse_object owner (buildZodSchema schema) data)) = Some v ->
  exists m items, v = PArr (owner, m) items.
Proof.
  intros Hnd Hk Ha H. rewrite parse_object_out in H.
  destruct (parse_fields_lookup _ _ _ _ _ _ H) as [t [n1 [is [n2 [Hin Hz]]]]].
  destruct (buildZodSchema_in _ _ _ Hin) as [f [Hf ->]].
  rewrite (nodup_assoc _ _ _ _ Hnd Hf Hk) in Hz.
  exact (field_validator_array_owner _ _ _ _ _ _ _ _ Ha Hz).
Qed.

(** C10: for a unique field declared with [isArray], no [DuplicateUnique]
    error is ever reported when the listed file names are distinct: the
    uniqueness map compares the parsed arrays by identity, and each parse
    allocates its own arrays, whatever their elements. *)
Theorem C10_array_unique_never_duplicate (schema : FrontmatterSchema) (files : Listing)
  (k : jsstr) (fk : FrontmatterField) :
  NoDup (map fst files) -> NoDup (map fst schema) ->
  In (k, fk) schema -> fk.(isArray) = true ->
  forall f g, ~ In (DuplicateUnique k f g) (snd (validateDocType schema files)).
Proof.
  intros Hfiles Hkeys Hk Ha f g H. rewrite validate_errors in H.
  set (shape := buildZodSchema schema) in H.
  destruct (run_from_in _ _ _ _ H) as [l1 [x [l2 [Hsplit Hx]]]].
  destruct (process_file_cases shape (snd (run_from shape (initial_maps schema) l1)) x)
    as [[_ Hnd] | [data [out [_ [_ [Hpo [He _]]]]]]]; [exact (Hnd _ _ _ Hx)|].
  rewrite He in Hx.
  destruct (check_unique_dup _ _ _ _ _ _ Hx) as [Hf [m [v [Hin [Hl Hg]]]]].
  destruct (map_get_in _ _ _ Hg) as [v' [Hv' Hsv]].
  destruct (array_field_owner schema (fst x) data k fk v Hkeys Hk Ha)
    as [n [items Hvarr]]; [fold shape; rewrite Hpo; exact Hl|].
  destruct (run_from_entries
              (fun k' v g => In g (map fst l1) /\
                 (k' = k -> exists n items, v = PArr (g, n) items))
              shape (initial_maps schema) l1) with (k := k) (m := m) (v := v') (g := g)
    as [Hg1 Hg2]; [| | exact Hin | exact Hv' |].
  - intros k' m' v'' g' Hin' Hm'. rewrite (initial_maps_empty _ _ _ Hin') in Hm'. contradiction.
  - intros f' d' out' k' v'' Hin' Hmd' Hp' Hl'. split.
    + apply in_map_iff. exists (f', Some d'); split; [reflexivity | exact Hin'].
    + intros ->. apply (array_field_owner schema f' d' k fk v'' Hkeys Hk Ha).
      fold shape. rewrite Hp'. exact Hl'.
  - destruct (Hg2 eq_refl) as [n' [items' ->]]. subst v.
    simpl in Hsv. apply andb_true_iff in Hsv as [Ho _]. apply str_eqb_eq in Ho.
    rewrite Hsplit, map_app in Hfiles. simpl in Hfiles.
    apply (NoDup_remove_2 _ _ _ Hfiles). apply in_or_app; left. rewrite <- Ho. exact Hg1.
Qed.

Lemma C10_witness :
  NoDup (map fst tags_listing) /\ NoDup (map fst [(lit "tags", tags_field)]) /\
  (forall f g, ~ In (DuplicateUnique (lit "tags") f g)
                    (snd (validateDocType [(lit "tags", tags_field)] tags_listing))) /\
  validateDocType [(lit "tags", tags_field)] tags_listing = (2, []).
Proof.
  assert (H1 : NoDup (map fst tags_listing)).
  { simpl. constructor; [|constructor; [|constructor]].
    - simpl. intros [H | []]. discriminate H.
    - intros []. }
  assert (H2 : NoDup (map fst [(lit "tags", tags_field)])) by (constructor; [intros [] | constructor]).
  split; [exact H1 | split; [exact H2 | split]].
  - exact (C10_array_unique_never_duplicate [(lit "tags", tags_field)] tags_listing
             (lit "tags") tags_field H1 H2 (or_introl eq_refl) eq_refl).
  - vm_compute. reflexivity.
Defined.

(** ** Enumerations *)

Lemma n_dec_aux_nonempty (fuel : nat) (n : N) (acc : jsstr) :
  acc <> [] -> n_dec_aux fuel n acc <> [].
Proof.
  revert n acc; induction fuel as [|fuel IH]; intros n acc H; simpl; [exact H|].
  destruct (N.div n 10 =? 0)%N; [discriminate | apply IH; discriminate].
Qed.

Lemma n_dec_nonempty (n : N) : n_dec n <> [].
Proof.
  unfold n_dec. generalize (N.to_nat (N.size n)) as k. intros k. simpl.
  destruct (N.div n 10 =? 0)%N; [discriminate | apply n_dec_aux_nonempty; discriminate].
Qed.

Lemma z_dec_nonempty (z : Z) : z_dec z <> [].
Proof. destruct z as [|p|p]; simpl; [apply n_dec_nonempty | apply n_dec_nonempty | discriminate]. Qed.

(** C9, as the code does it: a number field whose [enum] lists numbers gets
    the validator [z.enum] of the stringified entries in place of
    [z.number()], so every number in the front matter, a listed one included,
    is rejected with an [invalid_type] issue. *)
Theorem C9_number_enum_rejects_every_number (f : FrontmatterField) (e : Z)
  (rest : list EnumLit) (owner : jsstr) (path : list PathSeg) (z : Z) (n : nat) :
  f.(ftype) = TNumber -> f.(isArray) = false -> f.(enum) = Some (ENum e :: rest) ->
  zparse owner (field_validator f) path (Some (JNum z)) n = (invalid_type path, None, n).
Proof.
  intros _ Ha He. unfold field_validator. rewrite Ha, He. simpl map.
  unfold enum_string at 1.
  destruct (z_dec e) as [|c cs] eqn:Ez; [exfalso; exact (z_dec_nonempty e Ez)|].
  destruct (required f); reflexivity.
Qed.

Lemma C9_witness :
  In (ENum 1) (match priority_field.(enum) with Some l => l | None => [] end) /\
  zparse (lit "a.md") (field_validator priority_field) [PKey (lit "n")] (Some (JNum 1)) 0 =
  (invalid_type [PKey (lit "n")], None, 0) /\
  validateDocType [(lit "n", priority_field)] [(lit "a.md", Some [(lit "n", JNum 1)])] =
  (1, [InvalidFrontmatter (lit "a.md") [{| ipath := [PKey (lit "n")]; icode := InvalidType |}]]).
Proof.
  split; [left; reflexivity|]. split.
  - exact (C9_number_enum_rejects_every_number priority_field 1 [ENum 2] (lit "a.md")
             [PKey (lit "n")] 1 0 eq_refl eq_refl eq_refl).
  - vm_compute. reflexivity.
Defined.

(** ** Front-matter assignment *)

Lemma fm_get_set_same (k : jsstr) (v : jsval) (fm : FM) :
  fm_get k (fm_set k v fm) = Some v.
Proof.
  induction fm as [|[k' v'] fm IH]; simpl.
  - rewrite str_eqb_refl; reflexivity.
  - destruct (str_eqb k k') eqn:E; simpl; rewrite E; [reflexivity | exact IH].
Qed.

Lemma fm_get_set_other (k k' : jsstr) (v : jsval) (fm : FM) :
  k' <> k -> fm_get k' (fm_set k v fm) = fm_get k' fm.
Proof.
  intros Hne. induction fm as [|[k0 v0] fm IH]; simpl.
  - destruct (str_eqb k' k) eqn:E; [apply str_eqb_eq in E; contradiction | reflexivity].
  - destruct (str_eqb k k0) eqn:E; simpl.
    + apply str_eqb_eq in E; subst k0.
      destruct (str_eqb k' k) eqn:E'; [apply str_eqb_eq in E'; contradiction | reflexivity].
    + rewrite IH. reflexivity.
Qed.

(** ** [handleStatus] *)

Lemma date_field_cases (schema : FrontmatterSchema) (f : jsstr) :
  date_field_to_update schema = Some f ->
  f = lit "dateModified" \/ f = lit "date" \/ f = lit "updated_at".
Proof.
  unfold date_field_to_update. intros H. apply find_some in H as [Hin _].
  destruct Hin as [<- | [<- | [<- | []]]]; auto.
Qed.

Lemma date_field_not_status (schema : FrontmatterSchema) (f : jsstr) :
  date_field_to_update schema = Some f -> f <> lit "status".
Proof.
  intros H. destruct (date_field_cases schema f H) as [-> | [-> | ->]];
    intros E; vm_compute in E; discriminate E.
Qed.

(** What the target search returns: the first Markdown entry with a truthy
    id whose string form is the requested id, every Markdown entry before it
    having been read without matching. *)
Lemma find_target_found (id : jsstr) (files : Listing) (file : jsstr) (data : FM) :
  find_target id files = TargetFound file data ->
  exists pre post, files = pre ++ (file, Some data) :: post /\
    is_md_file file = true /\
    (exists v, fm_get (lit "id") data = Some v /\ truthy (Some v) = true /\
               js_to_string v = id) /\
    Forall (fun e => is_md_file (fst e) = true ->
      exists d, snd e = Some d /\
        forall v, fm_get (lit "id") d = Some v ->
                  truthy (Some v) = false \/ js_to_string v <> id) pre.
Proof.
  induction files as [|[f c] files IH]; intros H; cbn [find_target] in H; [discriminate|].
  destruct (negb (ends_with (lit ".md") f) && negb (ends_with (lit ".mdx") f)) eqn:Emd.
  - destruct (IH H) as [pre [post [-> [Hmd [Hid Hpre]]]]].
    exists ((f, c) :: pre), post. split; [reflexivity|]. split; [exact Hmd|].
    split; [exact Hid|].
    constructor; [|exact Hpre]. simpl. unfold is_md_file. intros Hm.
    rewrite <- negb_orb, Hm in Emd. discriminate Emd.
  - assert (Hmdf : is_md_file f = true).
    { unfold is_md_file. rewrite <- negb_orb in Emd. apply negb_false_iff in Emd.
      exact Emd. }
    destruct c as [d|]; [|discriminate].
    destruct (fm_get (lit "id") d) as [v|] eqn:Ev.
    + destruct (truthy (Some v) && str_eqb (js_to_string v) id) eqn:Et.
      * injection H as <- <-. exists [], files. split; [reflexivity|].
        split; [exact Hmdf|]. split; [|constructor].
        apply andb_true_iff in Et as [Ht Hs]. apply str_eqb_eq in Hs.
        exists v. auto.
      * destruct (IH H) as [pre [post [-> [Hmd [Hid Hpre]]]]].
        exists ((f, Some d) :: pre), post. split; [reflexivity|].
        split; [exact Hmd|]. split; [exact Hid|].
        constructor; [|exact Hpre]. intros _. exists d. split; [reflexivity|].
        intros w Hw. rewrite Ev in Hw. injection Hw as <-.
        apply andb_false_iff in Et as [Ht | Hs]; [left; exact Ht | right].
        intros E. rewrite E, str_eqb_refl in Hs. discriminate.
    + destruct (IH H) as [pre [post [-> [Hmd [Hid Hpre]]]]].
      exists ((f, Some d) :: pre), post. split; [reflexivity|].
      split; [exact Hmd|]. split; [exact Hid|].
      constructor; [|exact Hpre]. intros _. exists d. split; [reflexivity|].
      intros w Hw. rewrite Ev in Hw. discriminate.
Qed.

Lemma enum_includes_spec (values : list EnumLit) (s : jsstr) :
  enum_includes values s = true <-> In (EStr s) values.
Proof.
  unfold enum_includes. rewrite existsb_exists. split.
  - intros [[x|z] [Hin Hx]]; [apply str_eqb_eq in Hx; subst x; exact Hin | discriminate].
  - intros Hin. exists (EStr s). split; [exact Hin | apply str_eqb_refl].
Qed.

(** ** The counts and errors of [validateDocType] *)

Lemma process_file_counted (shape : list (jsstr * ZodType)) (maps : UniqueMaps)
  (e : jsstr * option FM) :
  fst (fst (process_file shape maps e)) = is_md_file (fst e).
Proof.
  destruct e as [file content]. unfold process_file, is_md_file. cbn [fst snd].
  destruct (ends_with (lit ".md") file || ends_with (lit ".mdx") file) eqn:Emd.
  - rewrite <- negb_orb, Emd. cbn [negb].
    destruct content as [data|]; [|reflexivity].
    destruct (parse_object file shape data) as [[|i is] out]; [|reflexivity].
    destruct (check_unique file out maps); reflexivity.
  - rewrite <- negb_orb, Emd. reflexivity.
Qed.

Lemma fold_count (shape : list (jsstr * ZodType)) (l : Listing) (st : VState) :
  fileCount (fold_left (validate_step shape) l st) =
  fileCount st + List.length (filter (fun e => is_md_file (fst e)) l).
Proof.
  revert st; induction l as [|e l IH]; intros st; simpl; [lia|].
  rewrite IH. unfold validate_step.
  pose proof (process_file_counted shape (vmaps st) e) as Hc.
  destruct (process_file shape (vmaps st) e) as [[counted errs] maps']. simpl in *.
  subst counted. destruct (is_md_file (fst e)); simpl; lia.
Qed.

Lemma validateDocType_count (schema : FrontmatterSchema) (files : Listing) :
  fst (validateDocType schema files) =
  List.length (filter (fun e => is_md_file (fst e)) files).
Proof. unfold validateDocType. simpl. rewrite fold_count. reflexivity. Qed.

Lemma check_unique_all_dup (file : jsstr) (out : list (jsstr * PVal)) (maps : UniqueMaps) :
  forallb is_duplicate (fst (check_unique file out maps)) = true.
Proof.
  induction maps as [|[k m] maps IH]; simpl; [reflexivity|].
  destruct (check_unique file out maps) as [errs maps'']. simpl in IH.
  destruct (lookup_out k out) as [value|]; [destruct (map_get m value)|]; simpl;
    rewrite ?IH; reflexivity.
Qed.

Lemma filter_nondup_nil (l : list ValidationError) :
  forallb is_duplicate l = true -> filter (fun e => negb (is_duplicate e)) l = [].
Proof.
  induction l as [|e l IH]; simpl; [reflexivity|].
  intros H. apply andb_true_iff in H as [H1 H2]. rewrite H1. simpl. apply IH, H2.
Qed.

Lemma process_file_nondup (shape : list (jsstr * ZodType)) (maps : UniqueMaps)
  (x : jsstr * option FM) :
  filter (fun e => negb (is_duplicate e)) (snd (fst (process_file shape maps x))) =
  (if is_md_file (fst x) then
     match snd x with
     | None => [ReadFailure (fst x)]
     | Some data =>
         match fst (parse_object (fst x) shape data) with
         | [] => []
         | issues => [InvalidFrontmatter (fst x) issues]
         end
     end
   else []).
Proof.
  destruct x as [file content]. unfold process_file, is_md_file. cbn [fst snd].
  destruct (ends_with (lit ".md") file || ends_with (lit ".mdx") file) eqn:Emd.
  - rewrite <- negb_orb, Emd. cbn [negb].
    destruct content as [data|]; [|reflexivity].
    destruct (parse_object file shape data) as [[|i is] out]; [|reflexivity].
    pose proof (check_unique_all_dup file out maps) as Hd.
    destruct (check_unique file out maps) as [errs maps']. simpl in *.
    apply filter_nondup_nil, Hd.
  - rewrite <- negb_orb, Emd. reflexivity.
Qed.

Lemma run_from_nondup (shape : list (jsstr * ZodType)) (maps : UniqueMaps) (l : Listing) :
  filter (fun e => negb (is_duplicate e)) (fst (run_from shape maps l)) =
  flat_map (fun x =>
    if is_md_file (fst x) then
      match snd x with
      | None => [ReadFailure (fst x)]
      | Some data =>
          match fst (parse_object (fst x) shape data) with
          | [] => []
          | issues => [InvalidFrontmatter (fst x) issues]
          end
      end
    else []) l.
Proof.
  revert maps; induction l as [|x l IH]; intros maps; simpl; [reflexivity|].
  pose proof (process_file_nondup shape maps x) as Hx.
  destruct (process_file shape maps x) as [[c errs] maps'] eqn:Ep.
  specialize (IH maps').
  destruct (run_from shape maps' l) as [errs2 maps2]. simpl in *.
  rewrite filter_app, Hx, IH. reflexivity.
Qed.

Lemma fold_add (l : list nat) (a : nat) : fold_left Nat.add l a = a + list_sum l.
Proof. revert a; induction l as [|x l IH]; intros a; simpl; [lia|]. rewrite IH. lia. Qed.

Lemma length_concat_sum {A : Type} (l : list (list A)) :
  List.length (List.concat l) = list_sum (map (@List.length A) l).
Proof. induction l as [|x l IH]; simpl; [reflexivity|]. rewrite length_app, IH. reflexivity. Qed.

Lemma validate_types_spec (sel : list (DocumentType * Listing)) (n : nat)
  (errs : list ValidationError) (fail : bool) :
  validate_types sel = ValidateSummary n errs fail ->
  n = list_sum (map (fun p => List.length (filter (fun e => is_md_file (fst e)) (snd p))) sel) /\
  errs = List.concat (map (fun p => snd (validateDocType (dfrontmatter (fst p)) (snd p))) sel) /\
  (fail = true <-> errs <> []).
Proof.
  unfold validate_types. intros H. injection H as Hn He Hf.
  rewrite !map_map in *. rewrite fold_add, Nat.add_0_l in Hn, Hf.
  split; [|split].
  - rewrite <- Hn. f_equal. apply map_ext. intros p. apply validateDocType_count.
  - rewrite <- He. reflexivity.
  - subst errs fail.
    rewrite <- (map_map (fun x => snd (validateDocType (dfrontmatter (fst x)) (snd x)))
                        (@List.length ValidationError)), <- length_concat_sum.
    destruct (List.concat _) as [|e l]; cbn [List.length Nat.eqb negb];
      split; intros H; try discriminate; try congruence.
Qed.

(** ** What [handleStatus] writes *)

(** [handleStatus] changes the front matter of the document it updates only
    at [status], set to the new status, and at the first of [dateModified],
    [date] and [updated_at] that the schema declares, set to today's date;
    every other key reads as before. The index is regenerated from the
    listing in which the document holds the new front matter when the
    document is not [index.md] itself (whose rewritten text would be read
    back as the current index) and no other entry of the listing has the
    document's front matter (a file of the same text would get gray-matter's
    cached, mutated [data] object). *)
Theorem handleStatus_frame (types : list (jsstr * DocumentType)) (cfg : IndexingConfig)
  (type id newStatus today : jsstr) (files : Listing) (index : IndexFile)
  (file : jsstr) (data' : FM) (content : jsstr) :
  handleStatus types cfg type id newStatus today files index =
    StatusUpdated file data' content ->
  exists tc data,
    type_get type types = Some tc /\
    find_target id files = TargetFound file data /\
    fm_get (lit "status") data' = Some (JStr newStatus) /\
    (forall f, date_field_to_update (dfrontmatter tc) = Some f ->
               fm_get f data' = Some (JStr today)) /\
    (forall k, k <> lit "status" -> date_field_to_update (dfrontmatter tc) <> Some k ->
               fm_get k data' = fm_get k data) /\
    (file <> lit "index.md" ->
     (forall f' d', In (f', Some d') files -> f' <> file -> d' <> data) ->
     updateIndexFile (dpath tc) cfg (replace_entry file data' files) index = Some content).
Proof.
  unfold handleStatus. intros H.
  destruct (type_get type types) as [tc|] eqn:Et;
    [|destruct (object_prototype_name type); discriminate].
  destruct (schema_get (lit "status") (dfrontmatter tc)) as [sf|]; [|discriminate].
  destruct (match enum sf with
            | Some values => negb (enum_includes values newStatus)
            | None => false end); [discriminate|].
  destruct (find_target id files) as [f d| |] eqn:Ef; try discriminate.
  exists tc, d.
  destruct (date_field_to_update (dfrontmatter tc)) as [df|] eqn:Ed.
  - pose proof (date_field_not_status _ _ Ed) as Hdf.
    destruct (updateIndexFile (dpath tc) cfg
                (replace_entry f (fm_set df (JStr today)
                   (fm_set (lit "status") (JStr newStatus) d)) files) index) eqn:Eu;
      [|discriminate].
    injection H as <- <- <-.
    split; [reflexivity|]. split; [reflexivity|]. split; [|split; [|split]].
    + rewrite fm_get_set_other by (intros E; apply Hdf; symmetry; exact E).
      apply fm_get_set_same.
    + intros f0 E. injection E as <-. apply fm_get_set_same.
    + intros k Hk Hkd.
      rewrite fm_get_set_other by (intros E; apply Hkd; rewrite E; reflexivity).
      apply fm_get_set_other, Hk.
    + intros _ _. exact Eu.
  - destruct (updateIndexFile (dpath tc) cfg
                (replace_entry f (fm_set (lit "status") (JStr newStatus) d) files) index)
      eqn:Eu; [|discriminate].
    injection H as <- <- <-.
    split; [reflexivity|]. split; [reflexivity|]. split; [|split; [|split]].
    + apply fm_get_set_same.
    + intros f0 E. discriminate.
    + intros k Hk _. apply fm_get_set_other, Hk.
    + intros _ _. exact Eu.
Qed.

Lemma handleStatus_frame_witness :
  exists file data' content,
    handleStatus sample_types sample_cfg (lit "adr") (lit "1") (lit "accepted")
      (lit "2026-10-15") adr_listing IndexMissing = StatusUpdated file data' content /\
    exists tc data,
      type_get (lit "adr") sample_types = Some tc /\
      find_target (lit "1") adr_listing = TargetFound file data /\
      fm_get (lit "status") data' = Some (JStr (lit "accepted")) /\
      (forall f, date_field_to_update (dfrontmatter tc) = Some f ->
                 fm_get f data' = Some (JStr (lit "2026-10-15"))) /\
      (forall k, k <> lit "status" -> date_field_to_update (dfrontmatter tc) <> Some k ->
                 fm_get k data' = fm_get k data) /\
      (file <> lit "index.md" ->
       (forall f' d', In (f', Some d') adr_listing -> f' <> file -> d' <> data) ->
       updateIndexFile (dpath tc) sample_cfg (replace_entry file data' adr_listing)
         IndexMissing = Some content).
Proof.
  destruct (handleStatus sample_types sample_cfg (lit "adr") (lit "1") (lit "accepted")
              (lit "2026-10-15") adr_listing IndexMissing) as [| | | | |file data' content] eqn:E;
    try (vm_compute in E; discriminate E).
  exists file, data', content. split; [reflexivity|].
  exact (handleStatus_frame sample_types sample_cfg (lit "adr") (lit "1") (lit "accepted")
           (lit "2026-10-15") adr_listing IndexMissing file data' content E).
Defined.

(** [handleStatus] rejects a new status that is not a string entry of the
    status field's [enum], whatever the files: [includes] compares with
    SameValueZero, so a number entry never admits the string argument and an
    empty [enum] admits nothing. *)
Theorem handleStatus_rejects_status_outside_enum (types : list (jsstr * DocumentType))
  (cfg : IndexingConfig) (type id newStatus today : jsstr) (files : Listing)
  (index : IndexFile) (tc : DocumentType) (sf : FrontmatterField) (values : list EnumLit) :
  type_get type types = Some tc ->
  schema_get (lit "status") (dfrontmatter tc) = Some sf ->
  enum sf = Some values ->
  ~ In (EStr newStatus) values ->
  handleStatus types cfg type id newStatus today files index = StatusInvalid.
Proof.
  intros Ht Hs He Hn. unfold handleStatus. rewrite Ht, Hs, He.
  destruct (enum_includes values newStatus) eqn:E;
    [apply enum_includes_spec in E; contradiction | reflexivity].
Qed.

Lemma handleStatus_rejects_status_outside_enum_witness :
  type_get (lit "adr") sample_types = Some adr_type_config /\
  schema_get (lit "status") (dfrontmatter adr_type_config) = Some status_field /\
  enum status_field = Some [EStr (lit "proposed"); EStr (lit "accepted")] /\
  ~ In (EStr (lit "superseded")) [EStr (lit "proposed"); EStr (lit "accepted")] /\
  handleStatus sample_types sample_cfg (lit "adr") (lit "1") (lit "superseded")
    (lit "2026-10-15") adr_listing IndexMissing = StatusInvalid.
Proof.
  assert (Hn : ~ In (EStr (lit "superseded")) [EStr (lit "proposed"); EStr (lit "accepted")]).
  { intros [H | [H | []]]; vm_compute in H; discriminate H. }
  split; [reflexivity|]. split; [reflexivity|]. split; [reflexivity|]. split; [exact Hn|].
  apply (handleStatus_rejects_status_outside_enum sample_types sample_cfg (lit "adr")
           (lit "1") (lit "superseded") (lit "2026-10-15") adr_listing IndexMissing
           adr_type_config status_field [EStr (lit "proposed"); EStr (lit "accepted")]);
    [reflexivity | reflexivity | reflexivity | exact Hn].
Defined.

(** The document [handleStatus] updates is the first Markdown entry of the
    listing whose [id] is truthy and whose [String] is the requested id; every
    Markdown entry before it was read and has a falsy id ([0], [false], [""],
    [null], absent) or one with another string form. *)
Theorem handleStatus_target_is_first_match (types : list (jsstr * DocumentType))
  (cfg : IndexingConfig) (type id newStatus today : jsstr) (files : Listing)
  (index : IndexFile) (file : jsstr) (data' : FM) (content : jsstr) :
  handleStatus types cfg type id newStatus today files index =
    StatusUpdated file data' content ->
  exists pre data post, files = pre ++ (file, Some data) :: post /\
    is_md_file file = true /\
    (exists v, fm_get (lit "id") data = Some v /\ truthy (Some v) = true /\
               js_to_string v = id) /\
    Forall (fun e => is_md_file (fst e) = true ->
      exists d, snd e = Some d /\
        forall v, fm_get (lit "id") d = Some v ->
                  truthy (Some v) = false \/ js_to_string v <> id) pre.
Proof.
  unfold handleStatus. intros H.
  destruct (type_get type types) as [tc|];
    [|destruct (object_prototype_name type); discriminate].
  destruct (schema_get (lit "status") (dfrontmatter tc)) as [sf|]; [|discriminate].
  destruct (match enum sf with
            | Some values => negb (enum_includes values newStatus)
            | None => false end); [discriminate|].
  destruct (find_target id files) as [f d| |] eqn:Ef; try discriminate.
  assert (Hf : f = file).
  { destruct (updateIndexFile _ _ _ _); [|discriminate]. injection H as <- _ _. reflexivity. }
  subst f.
  destruct (find_target_found id files file d Ef) as [pre [post [Hs [Hmd [Hid Hpre]]]]].
  exists pre, d, post. auto.
Qed.

Lemma handleStatus_target_is_first_match_witness :
  exists file data' content,
    handleStatus sample_types sample_cfg (lit "adr") (lit "1") (lit "accepted")
      (lit "2026-10-15") adr_listing IndexMissing = StatusUpdated file data' content /\
    exists pre data post, adr_listing = pre ++ (file, Some data) :: post /\
      is_md_file file = true /\
      (exists v, fm_get (lit "id") data = Some v /\ truthy (Some v) = true /\
                 js_to_string v = lit "1") /\
      Forall (fun e => is_md_file (fst e) = true ->
        exists d, snd e = Some d /\
          forall v, fm_get (lit "id") d = Some v ->
                    truthy (Some v) = false \/ js_to_string v <> lit "1") pre.
Proof.
  destruct (handleStatus sample_types sample_cfg (lit "adr") (lit "1") (lit "accepted")
              (lit "2026-10-15") adr_listing IndexMissing) as [| | | | |file data' content] eqn:E;
    try (vm_compute in E; discriminate E).
  exists file, data', content. split; [reflexivity|].
  exact (handleStatus_target_is_first_match sample_types sample_cfg (lit "adr") (lit "1")
           (lit "accepted") (lit "2026-10-15") adr_listing IndexMissing file data' content E).
Defined.

(** ** What [validateDocType] counts and reports *)

(** The file count of [validateDocType] is the number of entries whose name
    ends in [.md] or [.mdx]: unreadable and invalid files and [index.md]
    count, other names do not. *)
Theorem validateDocType_fileCount (schema : FrontmatterSchema) (files : Listing) :
  fst (validateDocType schema files) =
  List.length (filter (fun e => is_md_file (fst e)) files).
Proof. apply validateDocType_count. Qed.

(** Apart from the duplicate-value errors, [validateDocType] reports, in
    listing order, one read error per unreadable Markdown file and one
    front-matter error per Markdown file that fails the schema, and nothing
    else; the uniqueness maps have no influence on these errors. *)
Theorem validateDocType_non_duplicate_errors (schema : FrontmatterSchema) (files : Listing) :
  filter (fun e => negb (is_duplicate e)) (snd (validateDocType schema files)) =
  flat_map (fun x =>
    if is_md_file (fst x) then
      match snd x with
      | None => [ReadFailure (fst x)]
      | Some data =>
          match fst (parse_object (fst x) (buildZodSchema schema) data) with
          | [] => []
          | issues => [InvalidFrontmatter (fst x) issues]
          end
      end
    else []) files.
Proof. rewrite validate_errors. apply run_from_nondup. Qed.

(** ** [handleValidate] *)

(** [handleValidate] stops without validating (and without a failing exit
    code) exactly when a non-empty type name is given that is neither a type
    of the configuration nor a name inherited from [Object.prototype]; it
    fails with exit code 1 exactly when the given name is such an inherited
    name and not a type. Otherwise it validates either every type or the
    named one; the file total is the number of Markdown files of the
    validated types, the errors are theirs in order, and the exit code is
    failing exactly when there is an error. *)
Theorem handleValidate_outcome (types : list (jsstr * (DocumentType * Listing)))
  (type : option jsstr) :
  (handleValidate types type = ValidateUnknownType <->
   exists t, type = Some t /\ t <> [] /\ ~ In t (map fst types) /\
             object_prototype_name t = false) /\
  (handleValidate types type = ValidateFailed <->
   exists t, type = Some t /\ ~ In t (map fst types) /\ object_prototype_name t = true) /\
  (forall n errs fail,
   handleValidate types type = ValidateSummary n errs fail ->
   exists sel,
     (sel = map snd types \/ exists e, In e types /\ type = Some (fst e) /\ sel = [snd e]) /\
     n = list_sum (map (fun p => List.length (filter (fun e => is_md_file (fst e)) (snd p))) sel) /\
     errs = List.concat (map (fun p => snd (validateDocType (dfrontmatter (fst p)) (snd p))) sel) /\
     (fail = true <-> errs <> [])).
Proof.
  unfold handleValidate. destruct type as [[|c t]|].
  - split; [|split].
    + split; [unfold validate_types; discriminate|].
      intros [t [E [Hne _]]]. injection E as <-. contradiction.
    + split; [unfold validate_types; discriminate|].
      intros [t [E [_ Ho]]]. injection E as <-. discriminate Ho.
    + intros n errs fail H. exists (map snd types).
      split; [left; reflexivity | apply validate_types_spec, H].
  - destruct (find (fun e => str_eqb (c :: t) (fst e)) types) as [e|] eqn:Ef.
    + apply find_some in Ef as [Hin Heq]. apply str_eqb_eq in Heq.
      assert (Hn : In (c :: t) (map fst types)) by (rewrite Heq; apply in_map, Hin).
      split; [|split].
      * split; [unfold validate_types; discriminate|].
        intros [t0 [E [_ [Hn' _]]]]. injection E as <-. contradiction.
      * split; [unfold validate_types; discriminate|].
        intros [t0 [E [Hn' _]]]. injection E as <-. contradiction.
      * intros n errs fail H. exists [snd e].
        split; [right; exists e; rewrite Heq; auto | apply validate_types_spec, H].
    + assert (Hn : ~ In (c :: t) (map fst types)).
      { intros Hin. apply in_map_iff in Hin as [e [He Hin]].
        pose proof (find_none _ _ Ef e Hin) as Hf. cbv beta in Hf.
        rewrite He, str_eqb_refl in Hf. discriminate. }
      destruct (object_prototype_name (c :: t)) eqn:Eo.
      * split; [|split].
        -- split; [discriminate|]. intros [t0 [E [_ [_ Ho]]]]. injection E as <-.
           rewrite Eo in Ho. discriminate Ho.
        -- split; [intros _ | intros _; reflexivity].
           exists (c :: t). split; [reflexivity|]. split; [exact Hn | exact Eo].
        -- intros n errs fail H. discriminate.
      * split; [|split].
        -- split; [intros _ | intros _; reflexivity].
           exists (c :: t). split; [reflexivity|]. split; [discriminate|].
           split; [exact Hn | exact Eo].
        -- split; [discriminate|]. intros [t0 [E [_ Ho]]]. injection E as <-.
           rewrite Eo in Ho. discriminate Ho.
        -- intros n errs fail H. discriminate.
  - split; [|split].
    + split; [unfold validate_types; discriminate|].
      intros [t [E _]]. discriminate.
    + split; [unfold validate_types; discriminate|].
      intros [t [E _]]. discriminate.
    + intros n errs fail H. exists (map snd types).
      split; [left; reflexivity | apply validate_types_spec, H].
Qed.

(** An inherited name given as the type: [handleValidate] and [handleStatus]
    end in their [catch] branch, while a name that is no property at all is
    reported as an unknown type. *)
Lemma inherited_type_name_fails :
  handleValidate [] (Some (lit "constructor")) = ValidateFailed /\
  handleValidate [] (Some (lit "adr")) = ValidateUnknownType /\
  handleStatus [] sample_cfg (lit "__proto__") (lit "1") (lit "accepted") (lit "2026-10-15")
    adr_listing IndexMissing = StatusFailed.
Proof. split; [|split]; vm_compute; reflexivity. Qed.

(** ** Searching the index for its markers *)

Lemma starts_with_app_r (p s t : jsstr) :
  starts_with p s = true -> starts_with p (s ++ t) = true.
Proof.
  intros H. destruct (starts_with_true _ _ H) as [u ->].
  rewrite <- app_assoc. apply starts_with_app.
Qed.

Lemma starts_with_nonempty (p s : jsstr) :
  p <> [] -> starts_with p s = true -> s <> [].
Proof. destruct p; [congruence|]. destruct s; [discriminate|]. intros _ _; discriminate. Qed.

Lemma indexOf_none_iff (p s : jsstr) :
  indexOf p s = None <-> forall k, starts_with p (skipn k s) = false.
Proof.
  induction s as [|c s IH]; rewrite indexOf_eq; split.
  - destruct (starts_with p []) eqn:E; [discriminate|].
    intros _ k. rewrite skipn_nil. exact E.
  - intros H. specialize (H 0). simpl in H. rewrite H. reflexivity.
  - destruct (starts_with p (c :: s)) eqn:E; [discriminate|].
    destruct (indexOf p s) eqn:Ei; [discriminate|].
    intros _ [|k]; [exact E | apply IH; reflexivity].
  - intros H. pose proof (H 0) as H0. simpl in H0. rewrite H0.
    assert (Hs : indexOf p s = None) by (apply IH; intros k; apply (H (S k))).
    rewrite Hs. reflexivity.
Qed.

Lemma indexOf_before (p s : jsstr) (n : nat) :
  indexOf p s = Some n -> forall k, k < n -> starts_with p (skipn k s) = false.
Proof.
  revert n; induction s as [|c s IH]; intros n H k Hk; rewrite indexOf_eq in H.
  - destruct (starts_with p []); [injection H as <-; lia | discriminate].
  - destruct (starts_with p (c :: s)) eqn:E; [injection H as <-; lia|].
    destruct (indexOf p s) as [m|] eqn:Em; [|discriminate].
    injection H as <-. destruct k as [|k]; [exact E|].
    apply (IH m eq_refl). lia.
Qed.

Lemma skipn_app_lt (k : nat) (A B : jsstr) :
  k < List.length A -> skipn k (A ++ B) = skipn k A ++ B.
Proof.
  intros H. rewrite skipn_app. replace (k - List.length A) with 0 by lia. reflexivity.
Qed.

(** A pattern without [c] that matches at the start of [A ++ c :: B] ends in [A]. *)
Lemma prefix_no_sep (p A B : jsstr) (c : ascii) :
  ~ In c p -> starts_with p (A ++ c :: B) = true -> starts_with p A = true.
Proof.
  revert A; induction p as [|d p IH]; intros A Hc H; [reflexivity|].
  destruct A as [|a A]; simpl in H.
  - apply andb_true_iff in H as [H1 _]. apply Ascii.eqb_eq in H1. subst d.
    exfalso; apply Hc; left; reflexivity.
  - apply andb_true_iff in H as [H1 H2]. simpl. rewrite H1. simpl.
    apply (IH A); [intros Hin; apply Hc; right; exact Hin | exact H2].
Qed.

(** A pattern whose first character occurs nowhere else, matching inside a
    non-empty [A] in front of that character, ends in [A]. *)
Lemma prefix_unique_head (c0 : ascii) (p' A B : jsstr) :
  ~ In c0 p' -> A <> [] -> starts_with (c0 :: p') (A ++ c0 :: B) = true ->
  starts_with (c0 :: p') A = true.
Proof.
  destruct A as [|a A]; [congruence|]. simpl. intros Hn _ H.
  apply andb_true_iff in H as [H1 H2]. rewrite H1. simpl.
  exact (prefix_no_sep p' A B c0 Hn H2).
Qed.

Lemma indexOf_app_skip (p A B : jsstr) :
  (forall k, k < List.length A -> starts_with p (skipn k (A ++ B)) = false) ->
  indexOf p (A ++ B) = option_map (Nat.add (List.length A)) (indexOf p B).
Proof.
  induction A as [|a A IH]; intros H.
  - simpl. destruct (indexOf p B); reflexivity.
  - rewrite <- app_comm_cons, indexOf_eq.
    pose proof (H 0 ltac:(simpl; lia)) as H0. simpl in H0. rewrite H0.
    rewrite IH; [destruct (indexOf p B); reflexivity|].
    intros k Hk. apply (H (S k)). simpl; lia.
Qed.

(** Skipping a prefix free of the pattern, up to a character the pattern lacks. *)
Lemma indexOf_sep (p A B : jsstr) (c : ascii) :
  p <> [] -> ~ In c p -> indexOf p A = None ->
  indexOf p (A ++ c :: B) = option_map (Nat.add (S (List.length A))) (indexOf p B).
Proof.
  intros Hp Hc HA.
  replace (A ++ c :: B) with ((A ++ [c]) ++ B) by (rewrite <- app_assoc; reflexivity).
  rewrite indexOf_app_skip.
  - rewrite length_app. simpl. replace (List.length A + 1) with (S (List.length A)) by lia.
    reflexivity.
  - intros k Hk. rewrite length_app in Hk; simpl in Hk. rewrite <- app_assoc. simpl.
    destruct (Nat.lt_ge_cases k (List.length A)) as [Hlt | Hge].
    + rewrite skipn_app_lt by exact Hlt.
      destruct (starts_with p (skipn k A ++ c :: B)) eqn:E; [|reflexivity].
      apply prefix_no_sep in E; [|exact Hc].
      rewrite (proj1 (indexOf_none_iff p A) HA k) in E. discriminate.
    + assert (k = List.length A) by lia. subst k.
      rewrite skipn_app, skipn_all, Nat.sub_diag. simpl.
      destruct p as [|d p]; [congruence|]. simpl.
      destruct (Ascii.eqb d c) eqn:E; [|reflexivity].
      apply Ascii.eqb_eq in E; subst d. exfalso; apply Hc; left; reflexivity.
Qed.

Lemma indexOf_sep_head (p B : jsstr) (c : ascii) :
  p <> [] -> ~ In c p -> indexOf p (c :: B) = option_map S (indexOf p B).
Proof.
  intros Hp Hc. apply (indexOf_sep p [] B c Hp Hc). rewrite indexOf_eq.
  destruct p; [congruence|]. reflexivity.
Qed.

(** Skipping a prefix free of the pattern, up to the pattern's own first
    character when it occurs nowhere else in the pattern. *)
Lemma indexOf_head (c0 : ascii) (p' A B : jsstr) :
  ~ In c0 p' -> indexOf (c0 :: p') A = None ->
  indexOf (c0 :: p') (A ++ c0 :: B) =
  option_map (Nat.add (List.length A)) (indexOf (c0 :: p') (c0 :: B)).
Proof.
  intros Hn HA. apply indexOf_app_skip. intros k Hk.
  rewrite skipn_app_lt by exact Hk.
  destruct (starts_with (c0 :: p') (skipn k A ++ c0 :: B)) eqn:E; [|reflexivity].
  apply prefix_unique_head in E; [| exact Hn |].
  - rewrite (proj1 (indexOf_none_iff _ A) HA k) in E. discriminate.
  - intros E'. apply (f_equal (@List.length ascii)) in E'.
    rewrite length_skipn in E'. simpl in E'. lia.
Qed.

Lemma indexOf_self_app (p Y : jsstr) : indexOf p (p ++ Y) = Some 0.
Proof. rewrite indexOf_eq, starts_with_app. reflexivity. Qed.

(** A pattern absent from a string is absent from each infix of it. *)
Lemma indexOf_infix_none (p A B C : jsstr) :
  indexOf p (A ++ B ++ C) = None -> indexOf p B = None.
Proof.
  rewrite !indexOf_none_iff. intros H k.
  destruct (starts_with p (skipn k B)) eqn:E; [|reflexivity]. exfalso.
  destruct p as [|d p].
  - specialize (H 0). discriminate.
  - assert (Hk : k < List.length B).
    { destruct (Nat.lt_ge_cases k (List.length B)) as [|Hge]; [assumption|].
      rewrite skipn_all2 in E by exact Hge. discriminate. }
    specialize (H (List.length A + k)).
    rewrite skipn_app, skipn_all2, app_nil_l in H by lia.
    replace (List.length A + k - List.length A) with k in H by lia.
    rewrite skipn_app_lt in H by exact Hk.
    rewrite (starts_with_app_r _ _ _ E) in H. discriminate.
Qed.

(** Nothing before the first occurrence of a pattern contains it. *)
Lemma indexOf_prefix_none (p s : jsstr) (i j : nat) :
  p <> [] -> indexOf p s = Some j -> i <= j -> indexOf p (firstn i s) = None.
Proof.
  intros Hp H Hij. apply indexOf_none_iff. intros k.
  destruct (starts_with p (skipn k (firstn i s))) eqn:E; [|reflexivity]. exfalso.
  assert (Hk : k < List.length (firstn i s)).
  { destruct (Nat.lt_ge_cases k (List.length (firstn i s))) as [|Hge]; [assumption|].
    rewrite skipn_all2 in E by exact Hge. destruct p; [congruence | discriminate]. }
  assert (Hs : skipn k s = skipn k (firstn i s) ++ skipn i s).
  { rewrite <- (firstn_skipn i s) at 1. apply skipn_app_lt, Hk. }
  rewrite length_firstn in Hk.
  pose proof (indexOf_before p s j H k ltac:(lia)) as F.
  rewrite Hs, (starts_with_app_r _ _ _ E) in F. discriminate.
Qed.

(** A pattern with a character the string lacks does not occur in it. *)
Lemma indexOf_missing_char (p s : jsstr) (c : ascii) :
  In c p -> ~ In c s -> indexOf p s = None.
Proof.
  intros Hp Hs. apply indexOf_none_iff. intros k.
  destruct (starts_with p (skipn k s)) eqn:E; [|reflexivity]. exfalso.
  destruct (starts_with_true _ _ E) as [t Ht].
  apply Hs. rewrite <- (firstn_skipn k s), Ht.
  apply in_or_app; right; apply in_or_app; left; exact Hp.
Qed.

Lemma not_in_existsb (c : ascii) (l : jsstr) :
  existsb (Ascii.eqb c) l = false -> ~ In c l.
Proof.
  intros H Hin. assert (E : existsb (Ascii.eqb c) l = true).
  { apply existsb_exists. exists c. split; [exact Hin | apply Ascii.eqb_refl]. }
  congruence.
Qed.

Lemma indexOf_self_cons (c : ascii) (p Y : jsstr) : indexOf (c :: p) (c :: p ++ Y) = Some 0.
Proof. exact (indexOf_self_app (c :: p) Y). Qed.

(** The positions of the markers in a text holding a marker-wrapped region
    after a prefix free of both markers, for markers that start with their
    only [<], hold no line feed, and do not contain one another. *)
Lemma region_positions (S E X C Y Stl Etl : jsstr) :
  S = "<"%char :: Stl -> E = "<"%char :: Etl ->
  ~ In "<"%char Stl -> ~ In "<"%char Etl ->
  ~ In (ascii_of_nat 10) E -> indexOf E S = None ->
  indexOf S X = None -> indexOf E X = None -> indexOf E C = None ->
  indexOf S (X ++ (S ++ nl ++ nl ++ C ++ nl ++ nl ++ E) ++ Y) = Some (List.length X) /\
  indexOf E (X ++ (S ++ nl ++ nl ++ C ++ nl ++ nl ++ E) ++ Y) =
    Some (List.length X + List.length S + List.length C + 4).
Proof.
  intros HS HE HSt HEt Hnl HES HSX HEX HEC.
  assert (HEne : E <> []) by (rewrite HE; discriminate).
  unfold nl. rewrite <- !app_assoc. subst S. cbn [app].
  split.
  - rewrite (indexOf_head _ _ _ _ HSt HSX), indexOf_self_cons. simpl. f_equal; lia.
  - rewrite HE at 1. rewrite (indexOf_head _ _ _ _ HEt (eq_ind _ (fun e => indexOf e X = None) HEX _ HE)).
    rewrite <- HE.
    rewrite (app_comm_cons Stl _ "<"%char).
    rewrite (indexOf_sep _ _ _ _ HEne Hnl HES).
    rewrite (indexOf_sep_head _ _ _ HEne Hnl).
    rewrite (indexOf_sep _ _ _ _ HEne Hnl HEC).
    rewrite (indexOf_sep_head _ _ _ HEne Hnl).
    rewrite indexOf_self_app. simpl. f_equal. lia.
Qed.

Lemma START_MARKER_head : START_MARKER = "<"%char :: lit "!-- FOLIO:INDEX:START -->".
Proof. reflexivity. Qed.

Lemma END_MARKER_head : END_MARKER = "<"%char :: lit "!-- FOLIO:INDEX:END -->".
Proof. reflexivity. Qed.

(** Merging the region into a text that already holds it, after a prefix
    free of both markers, gives the text back. *)
Lemma merge_existing_fixed (X C Y : jsstr) :
  indexOf START_MARKER X = None -> indexOf END_MARKER X = None ->
  indexOf END_MARKER C = None ->
  merge_existing (X ++ wrap_region C ++ Y) (wrap_region C) = X ++ wrap_region C ++ Y.
Proof.
  intros H1 H2 H3.
  destruct (region_positions START_MARKER END_MARKER X C Y
              (lit "!-- FOLIO:INDEX:START -->") (lit "!-- FOLIO:INDEX:END -->")
              START_MARKER_head END_MARKER_head
              (not_in_existsb "<"%char (lit "!-- FOLIO:INDEX:START -->") eq_refl)
              (not_in_existsb "<"%char (lit "!-- FOLIO:INDEX:END -->") eq_refl)
              (not_in_existsb (ascii_of_nat 10) END_MARKER eq_refl) eq_refl H1 H2 H3)
    as [Hs He].
  unfold merge_existing, wrap_region. rewrite Hs, He.
  rewrite substring_to_split.
  replace (List.length X + List.length START_MARKER + List.length C + 4
           + List.length END_MARKER)
    with (List.length X + List.length (START_MARKER ++ nl ++ nl ++ C ++ nl ++ nl ++ END_MARKER))
    by (rewrite !length_app; simpl; lia).
  rewrite substring_from_split. reflexivity.
Qed.

Lemma capitalize_words_in (b : bool) (s : jsstr) (c : ascii) :
  In c (capitalize_words b s) -> exists d, In d s /\ (c = d \/ c = to_upper d).
Proof.
  revert b; induction s as [|x s IH]; intros b H; [simpl in H; contradiction|].
  cbn [capitalize_words] in H.
  assert (Hrest : forall b', In c (capitalize_words b' s) ->
                  exists d, In d (x :: s) /\ (c = d \/ c = to_upper d)).
  { intros b' H'. destruct (IH _ H') as [d [Hd Hc]]. exists d. split; [right; exact Hd | exact Hc]. }
  destruct (is_word x); [destruct b|]; destruct H as [E | H]; try (apply (Hrest _ H)).
  - exists x. split; [left; reflexivity | left; symmetry; exact E].
  - exists x. split; [left; reflexivity | right; symmetry; exact E].
  - exists x. split; [left; reflexivity | left; symmetry; exact E].
Qed.

Lemma to_upper_dash (c : ascii) : to_upper c = "-"%char -> c = "-"%char.
Proof.
  destruct c as [[] [] [] [] [] [] [] []]; vm_compute; intros H;
    first [reflexivity | discriminate H].
Qed.

Lemma to_upper_underscore (c : ascii) : to_upper c = "_"%char -> c = "_"%char.
Proof.
  destruct c as [[] [] [] [] [] [] [] []]; vm_compute; intros H;
    first [reflexivity | discriminate H].
Qed.

Lemma to_upper_word (c : ascii) : is_word (to_upper c) = is_word c.
Proof. destruct c as [[] [] [] [] [] [] [] []]; reflexivity. Qed.

Lemma to_upper_not_lower (c : ascii) : is_lower (to_upper c) = false.
Proof. destruct c as [[] [] [] [] [] [] [] []]; reflexivity. Qed.

Lemma title_of_path_no_dash (p : jsstr) :
  ~ In "-"%char (title_of_path p) /\ ~ In "_"%char (title_of_path p).
Proof.
  unfold title_of_path.
  assert (Hm : forall d, In d (map (fun c => if Ascii.eqb c "-"%char || Ascii.eqb c "_"%char
                                              then " "%char else c) p) ->
                         d <> "-"%char /\ d <> "_"%char).
  { intros d Hd. apply in_map_iff in Hd as [x [<- _]].
    destruct (Ascii.eqb x "-"%char) eqn:E1; [split; discriminate|].
    destruct (Ascii.eqb x "_"%char) eqn:E2; [split; discriminate|].
    simpl. split; intros E; subst x; discriminate. }
  split; intros H; apply capitalize_words_in in H as [d [Hd [E | E]]];
    destruct (Hm d Hd) as [N1 N2].
  - apply N1; symmetry; exact E.
  - apply N1, to_upper_dash; symmetry; exact E.
  - apply N2; symmetry; exact E.
  - apply N2, to_upper_underscore; symmetry; exact E.
Qed.

(** The heading of a new [index.md] holds no marker: a title has no [-]. *)
Lemma heading_no_marker (typePath : jsstr) (m : jsstr) :
  In "-"%char m -> indexOf m (lit "# Index of " ++ title_of_path typePath ++ nl ++ nl) = None.
Proof.
  intros Hm. apply (indexOf_missing_char _ _ "-"%char Hm).
  intros H. apply in_app_or in H as [H | H].
  - exact (not_in_existsb "-"%char (lit "# Index of ") eq_refl H).
  - apply in_app_or in H as [H | H].
    + exact (proj1 (title_of_path_no_dash typePath) H).
    + exact (not_in_existsb "-"%char (nl ++ nl) eq_refl H).
Qed.

(** Two line feeds after a text free of a pattern without line feeds. *)
Lemma two_nl_none (p T : jsstr) :
  p <> [] -> ~ In (ascii_of_nat 10) p -> indexOf p T = None -> indexOf p (T ++ nl ++ nl) = None.
Proof.
  intros Hp Hn HT. unfold nl. cbn [app].
  rewrite (indexOf_sep _ _ _ _ Hp Hn HT), (indexOf_sep_head _ _ _ Hp Hn).
  rewrite indexOf_eq. destruct p; [congruence|]. reflexivity.
Qed.

(** ** Running [updateIndexFile] on its own output *)

(** Running [updateIndexFile] again on the [index.md] it wrote, with the same
    documents, writes the same content, when the rendered listing holds no end
    marker and an existing [index.md] had either no marker at all or a start
    marker before its first end marker. *)
Theorem updateIndexFile_idempotent (typePath : jsstr) (cfg : IndexingConfig)
  (listing : Listing) (index : IndexFile) (docs : list DocumentIndexInfo) (out : jsstr) :
  read_all (filter (fun e => is_doc_file (fst e)) listing) = Some docs ->
  indexOf END_MARKER (render_index cfg (order_documents docs)) = None ->
  match index with
  | IndexPresent s =>
      (indexOf START_MARKER s = None /\ indexOf END_MARKER s = None) \/
      (exists i j, indexOf START_MARKER s = Some i /\ indexOf END_MARKER s = Some j /\ i < j)
  | _ => True
  end ->
  updateIndexFile typePath cfg listing index = Some out ->
  updateIndexFile typePath cfg listing (IndexPresent out) = Some out.
Proof.
  intros Hr HC Hidx Hout. unfold updateIndexFile in *. rewrite Hr in *.
  assert (HSne : START_MARKER <> []) by (rewrite START_MARKER_head; discriminate).
  assert (HEne : END_MARKER <> []) by (rewrite END_MARKER_head; discriminate).
  destruct index as [s| |]; [| |discriminate].
  - injection Hout as <-. f_equal.
    destruct Hidx as [[H1 H2] | [i [j [H1 [H2 Hij]]]]].
    + assert (Hm : merge_existing s (wrap_region (render_index cfg (order_documents docs))) =
                   (js_trim s ++ nl ++ nl) ++
                   wrap_region (render_index cfg (order_documents docs)) ++ []).
      { unfold merge_existing at 1. rewrite H1, app_nil_r, <- !app_assoc. reflexivity. }
      rewrite Hm.
      destruct (js_trim_split s) as [lead [trail [Hs _]]].
      apply merge_existing_fixed; [| | exact HC].
      * apply two_nl_none; [exact HSne | apply not_in_existsb; vm_compute; reflexivity |].
        rewrite Hs in H1. exact (indexOf_infix_none _ _ _ _ H1).
      * apply two_nl_none; [exact HEne | apply not_in_existsb; vm_compute; reflexivity |].
        rewrite Hs in H2. exact (indexOf_infix_none _ _ _ _ H2).
    + assert (Hm : merge_existing s (wrap_region (render_index cfg (order_documents docs))) =
                   firstn i s ++ wrap_region (render_index cfg (order_documents docs)) ++
                   substring_from (j + List.length END_MARKER) s).
      { unfold merge_existing at 1. rewrite H1, H2. reflexivity. }
      rewrite Hm. apply merge_existing_fixed; [| | exact HC].
      * exact (indexOf_prefix_none _ _ i i HSne H1 (le_n i)).
      * exact (indexOf_prefix_none _ _ i j HEne H2 ltac:(lia)).
  - injection Hout as <-. f_equal.
    assert (HS : indexOf START_MARKER (lit "# Index of " ++ title_of_path typePath ++ nl ++ nl) = None)
      by (apply heading_no_marker; rewrite START_MARKER_head; right; right; left; reflexivity).
    assert (HE : indexOf END_MARKER (lit "# Index of " ++ title_of_path typePath ++ nl ++ nl) = None)
      by (apply heading_no_marker; rewrite END_MARKER_head; right; right; left; reflexivity).
    pose proof (merge_existing_fixed _ _ [] HS HE HC) as Hf.
    rewrite app_nil_r, <- !app_assoc in Hf. exact Hf.
Qed.

Lemma updateIndexFile_idempotent_witness :
  exists docs out,
    read_all (filter (fun e => is_doc_file (fst e)) sample_listing) = Some docs /\
    indexOf END_MARKER (render_index sample_cfg (order_documents docs)) = None /\
    ((indexOf START_MARKER marked_file = None /\ indexOf END_MARKER marked_file = None) \/
     (exists i j, indexOf START_MARKER marked_file = Some i /\
                  indexOf END_MARKER marked_file = Some j /\ i < j)) /\
    updateIndexFile (lit "adr") sample_cfg sample_listing (IndexPresent marked_file) = Some out /\
    updateIndexFile (lit "adr") sample_cfg sample_listing (IndexPresent out) = Some out.
Proof.
  destruct (read_all (filter (fun e => is_doc_file (fst e)) sample_listing)) as [docs|] eqn:Er;
    [|vm_compute in Er; discriminate Er].
  destruct (updateIndexFile (lit "adr") sample_cfg sample_listing (IndexPresent marked_file))
    as [out|] eqn:Eu; [|vm_compute in Eu; discriminate Eu].
  assert (HC : indexOf END_MARKER (render_index sample_cfg (order_documents docs)) = None).
  { vm_compute in Er. injection Er as Ed. rewrite <- Ed. vm_compute. reflexivity. }
  assert (Hm : (indexOf START_MARKER marked_file = None /\ indexOf END_MARKER marked_file = None) \/
               (exists i j, indexOf START_MARKER marked_file = Some i /\
                            indexOf END_MARKER marked_file = Some j /\ i < j)).
  { right. exists 7, 38. split; [vm_compute; reflexivity|]. split; [vm_compute; reflexivity|]. lia. }
  exists docs, out. split; [reflexivity|]. split; [exact HC|]. split; [exact Hm|].
  split; [reflexivity|].
  exact (updateIndexFile_idempotent (lit "adr") sample_cfg sample_listing
           (IndexPresent marked_file) docs out Er HC Hm Eu).
Defined.

(** ** The heading title *)

Lemma capitalize_words_length (b : bool) (s : jsstr) :
  List.length (capitalize_words b s) = List.length s.
Proof.
  revert b; induction s as [|x s IH]; intros b; [reflexivity|].
  cbn [capitalize_words]. destruct (is_word x); simpl; rewrite IH; reflexivity.
Qed.

Lemma last_cons_default {A : Type} (l : list A) (y d : A) : last (y :: l) d = last l y.
Proof.
  revert y d; induction l as [|a l IH]; intros y d; [reflexivity|].
  change (last (a :: l) d = last (a :: l) y). rewrite !IH. reflexivity.
Qed.

Lemma lower_is_word (c : ascii) : is_lower c = true -> is_word c = true.
Proof. intros H. unfold is_word. rewrite H, orb_true_r. reflexivity. Qed.

Lemma capitalize_words_word_start (b : bool) (s : jsstr) (d : ascii) (pre : jsstr)
  (c : ascii) (post : jsstr) :
  is_word d = b -> capitalize_words b s = pre ++ c :: post ->
  is_word (last pre d) = false -> is_lower c = false.
Proof.
  revert b d pre; induction s as [|x s IH]; intros b d pre Hd H Hl.
  - destruct pre; discriminate.
  - cbn [capitalize_words] in H. destruct pre as [|y pre].
    + simpl in Hl. rewrite Hl in Hd. subst b.
      destruct (is_word x) eqn:Ex; injection H as <- _.
      * apply to_upper_not_lower.
      * destruct (is_lower x) eqn:El; [|reflexivity].
        rewrite (lower_is_word _ El) in Ex. discriminate.
    + rewrite last_cons_default in Hl.
      destruct (is_word x) eqn:Ex; injection H as Hy Hrest.
      * apply (IH true y pre); [|exact Hrest | exact Hl].
        rewrite <- Hy. destruct b; [exact Ex | rewrite to_upper_word; exact Ex].
      * apply (IH false y pre); [|exact Hrest | exact Hl].
        rewrite <- Hy. exact Ex.
Qed.

(** The title of the heading of a new [index.md] has one character per
    character of the type path, no [-] nor [_], and no lower-case letter at
    the start of a word. *)
Theorem title_of_path_shape (p : jsstr) :
  List.length (title_of_path p) = List.length p /\
  ~ In "-"%char (title_of_path p) /\ ~ In "_"%char (title_of_path p) /\
  (forall pre c post, title_of_path p = pre ++ c :: post ->
     is_word (last pre " "%char) = false -> is_lower c = false).
Proof.
  split; [unfold title_of_path; rewrite capitalize_words_length, length_map; reflexivity|].
  destruct (title_of_path_no_dash p) as [H1 H2].
  split; [exact H1|]. split; [exact H2|].
  intros pre c post H Hl. unfold title_of_path in H.
  exact (capitalize_words_word_start false _ " "%char pre c post eq_refl H Hl).
Qed.

(** ** [encodeURI] *)

Lemma hex_digit_unescaped (n : nat) : n < 16 -> uri_unescaped (hex_digit n) = true.
Proof. intros H. do 16 (destruct n as [|n]; [reflexivity|]). lia. Qed.

Lemma pct_chars (m : nat) (c : ascii) :
  m < 256 -> In c (pct m) -> c = "%"%char \/ uri_unescaped c = true.
Proof.
  intros Hm H. unfold pct in H. destruct H as [<- | [<- | [<- | []]]].
  - left; reflexivity.
  - right. apply hex_digit_unescaped. apply Nat.Div0.div_lt_upper_bound. lia.
  - right. apply hex_digit_unescaped. apply Nat.mod_upper_bound. lia.
Qed.

Lemma encode_char_chars (a c : ascii) :
  In c (encode_char a) -> c = "%"%char \/ uri_unescaped c = true.
Proof.
  pose proof (nat_ascii_bounded a) as Hb.
  unfold encode_char. destruct (uri_unescaped a) eqn:E.
  - intros [<- | []]. right; exact E.
  - destruct (nat_of_ascii a <? 128) eqn:Elt.
    + apply pct_chars. lia.
    + intros H. apply in_app_or in H as [H | H]; refine (pct_chars _ _ _ H).
      * assert (nat_of_ascii a / 64 < 4) by (apply Nat.Div0.div_lt_upper_bound; lia). lia.
      * assert (nat_of_ascii a mod 64 < 64) by (apply Nat.mod_upper_bound; lia). lia.
Qed.

Lemma encode_char_length (a : ascii) :
  List.length (encode_char a) = if uri_unescaped a then 1 else
    if nat_of_ascii a <? 128 then 3 else 6.
Proof.
  unfold encode_char. destruct (uri_unescaped a); [reflexivity|].
  destruct (nat_of_ascii a <? 128); reflexivity.
Qed.

Lemma encodeURI_length (s : jsstr) : List.length s <= List.length (encodeURI s).
Proof.
  induction s as [|a s IH]; [simpl; lia|]. unfold encodeURI in *. simpl.
  rewrite length_app, encode_char_length.
  destruct (uri_unescaped a); [|destruct (nat_of_ascii a <? 128)]; lia.
Qed.

(** [encodeURI] writes only unescaped characters and [%], and it leaves a
    string unchanged exactly when every character of it is unescaped. *)
Theorem encodeURI_alphabet (s : jsstr) :
  (forall c, In c (encodeURI s) -> c = "%"%char \/ uri_unescaped c = true) /\
  (encodeURI s = s <-> forallb uri_unescaped s = true).
Proof.
  split.
  - intros c H. unfold encodeURI in H. apply in_flat_map in H as [a [_ H]].
    exact (encode_char_chars a c H).
  - induction s as [|a s IH]; [split; reflexivity|].
    unfold encodeURI in *. simpl. split.
    + intros H. pose proof (f_equal (@List.length ascii) H) as Hl.
      rewrite length_app, encode_char_length in Hl. simpl in Hl.
      pose proof (encodeURI_length s) as Hs. unfold encodeURI in Hs.
      destruct (uri_unescaped a) eqn:Ea;
        [|destruct (nat_of_ascii a <? 128); lia].
      simpl. apply IH. unfold encode_char in H. rewrite Ea in H.
      injection H as H. exact H.
    + intros H. apply andb_true_iff in H as [Ha Hs].
      unfold encode_char. rewrite Ha. simpl. f_equal. apply IH, Hs.
Qed.

(** ** The lines of the table *)

Lemma join_in (sep : jsstr) (l : list jsstr) (c : ascii) :
  In c (join sep l) -> In c sep \/ exists x, In x l /\ In c x.
Proof.
  induction l as [|x l IH]; simpl; [contradiction|].
  destruct l as [|y l].
  - intros H. right. exists x. split; [left; reflexivity | exact H].
  - intros H. apply in_app_or in H as [H | H].
    + right. exists x. split; [left; reflexivity | exact H].
    + apply in_app_or in H as [H | H]; [left; exact H|].
      destruct (IH H) as [H' | [z [Hz Hc]]]; [left; exact H'|].
      right. exists z. split; [right; exact Hz | exact Hc].
Qed.

Lemma join_nl_count (l : list jsstr) :
  (forall x, In x l -> ~ In (ascii_of_nat 10) x) ->
  count_occ ascii_dec (join nl l) (ascii_of_nat 10) = List.length l - 1.
Proof.
  induction l as [|x l IH]; intros H; [reflexivity|].
  destruct l as [|y l].
  - simpl. apply count_occ_not_In, H. left; reflexivity.
  - change (join nl (x :: y :: l)) with (x ++ nl ++ join nl (y :: l)).
    rewrite !count_occ_app, IH by (intros z Hz; apply H; right; exact Hz).
    rewrite (proj1 (count_occ_not_In _ _ _) (H x (or_introl eq_refl))).
    simpl. lia.
Qed.

Lemma no_nl_app (a b : jsstr) :
  ~ In (ascii_of_nat 10) a -> ~ In (ascii_of_nat 10) b -> ~ In (ascii_of_nat 10) (a ++ b).
Proof. intros Ha Hb H. apply in_app_or in H as [H | H]; contradiction. Qed.

Lemma no_nl_join (sep : jsstr) (l : list jsstr) :
  ~ In (ascii_of_nat 10) sep -> (forall x, In x l -> ~ In (ascii_of_nat 10) x) ->
  ~ In (ascii_of_nat 10) (join sep l).
Proof.
  intros Hs Hl H. destruct (join_in sep l _ H) as [H' | [x [Hx Hc]]];
    [exact (Hs H') | exact (Hl x Hx Hc)].
Qed.

Lemma encodeURI_no_nl (s : jsstr) : ~ In (ascii_of_nat 10) (encodeURI s).
Proof.
  intros H. unfold encodeURI in H. apply in_flat_map in H as [a [_ H]].
  destruct (encode_char_chars a _ H) as [E | E]; [discriminate E | discriminate E].
Qed.

(** A Markdown table has a header line, a separator line and one line per
    document when no column name and no rendered value holds a line feed. *)
Theorem generateMarkdownTable_lines (documents : list DocumentIndexInfo) (cols : list jsstr) :
  (forall col, In col cols -> ~ In (ascii_of_nat 10) col) ->
  (forall d col, In d documents -> In col cols ->
     ~ In (ascii_of_nat 10)
          (js_to_string (nullish_or (fm_get col d.(frontmatter)) (JStr (lit "N/A"))))) ->
  count_occ ascii_dec (generateMarkdownTable documents cols) (ascii_of_nat 10) =
  S (List.length documents).
Proof.
  intros Hc Hv. unfold generateMarkdownTable.
  rewrite join_nl_count.
  - simpl. rewrite length_map. lia.
  - intros x Hx. destruct Hx as [<- | [<- | Hx]].
    + repeat apply no_nl_app; try (apply not_in_existsb; reflexivity).
      apply no_nl_join; [apply not_in_existsb; reflexivity | exact Hc].
    + repeat apply no_nl_app; try (apply not_in_existsb; reflexivity).
      apply no_nl_join; [apply not_in_existsb; reflexivity|].
      intros y Hy. apply in_map_iff in Hy as [col [<- _]].
      apply not_in_existsb; reflexivity.
    + apply in_map_iff in Hx as [d [<- Hd]].
      repeat apply no_nl_app; try (apply not_in_existsb; reflexivity).
      apply no_nl_join; [apply not_in_existsb; reflexivity|].
      intros y Hy. apply in_map_iff in Hy as [col [<- Hcol]].
      pose proof (Hv d col Hd Hcol) as Hval.
      destruct (if existsb (str_eqb (lit "title")) cols then Some (lit "title") else hd_error cols)
        as [lc|]; [destruct (str_eqb col lc)|]; try exact Hval.
      repeat apply no_nl_app; try (apply not_in_existsb; reflexivity);
        [exact Hval | apply encodeURI_no_nl].
Qed.

Lemma generateMarkdownTable_lines_witness :
  count_occ ascii_dec
    (generateMarkdownTable
       [{| filename := lit "002-b.md"; frontmatter := [(lit "id", JNum 2); (lit "title", JStr (lit "B"))] |};
        {| filename := lit "001-a.md"; frontmatter := [(lit "id", JNum 1); (lit "title", JStr (lit "A"))] |}]
       sample_cfg.(columns)) (ascii_of_nat 10) = 3.
Proof.
  apply generateMarkdownTable_lines.
  - intros col Hc. simpl in Hc. destruct Hc as [<- | [<- | [<- | []]]];
      apply not_in_existsb; vm_compute; reflexivity.
  - intros d col Hd Hc. destruct Hd as [<- | [<- | []]];
      simpl in Hc; destruct Hc as [<- | [<- | [<- | []]]];
      apply not_in_existsb; vm_compute; reflexivity.
Defined.

(** ** Which entries of the directory count *)

Lemma read_all_unreadable (l : Listing) (f : jsstr) :
  In (f, None) l -> read_all l = None.
Proof.
  induction l as [|[f' [fm|]] l IH]; intros H; [contradiction| |reflexivity].
  destruct H as [H | H]; [discriminate H|].
  cbn [read_all]. rewrite (IH H). reflexivity.
Qed.

(** One unreadable Markdown document of the directory makes [updateIndexFile]
    write nothing, whatever the state of [index.md]. *)
Theorem updateIndexFile_unreadable_document (typePath : jsstr) (cfg : IndexingConfig)
  (listing : Listing) (index : IndexFile) (f : jsstr) :
  is_doc_file f = true -> In (f, None) listing ->
  updateIndexFile typePath cfg listing index = None.
Proof.
  intros Hf Hin. unfold updateIndexFile.
  rewrite (read_all_unreadable _ f); [reflexivity|].
  apply filter_In. split; [exact Hin | exact Hf].
Qed.

Lemma updateIndexFile_unreadable_document_witness :
  updateIndexFile (lit "adr") sample_cfg (sample_listing ++ [(lit "003-c.md", None)])
    IndexMissing = None.
Proof.
  apply (updateIndexFile_unreadable_document _ _ _ _ (lit "003-c.md")).
  - reflexivity.
  - apply in_or_app. right. left. reflexivity.
Defined.

(** Entries that are not Markdown documents, [index.md] among them, play no
    part in [updateIndexFile], even when they cannot be read. *)
Theorem updateIndexFile_ignores_other_files (typePath : jsstr) (cfg : IndexingConfig)
  (l1 l2 : Listing) (f : jsstr) (c : option FM) (index : IndexFile) :
  is_doc_file f = false ->
  updateIndexFile typePath cfg (l1 ++ (f, c) :: l2) index =
  updateIndexFile typePath cfg (l1 ++ l2) index.
Proof.
  intros Hf. unfold updateIndexFile. rewrite !filter_app. cbn [filter fst].
  rewrite Hf. reflexivity.
Qed.

Lemma updateIndexFile_ignores_other_files_witness :
  updateIndexFile (lit "adr") sample_cfg ((lit "index.md", None) :: sample_listing) IndexMissing =
  updateIndexFile (lit "adr") sample_cfg sample_listing IndexMissing.
Proof.
  exact (updateIndexFile_ignores_other_files (lit "adr") sample_cfg [] sample_listing
           (lit "index.md") None IndexMissing eq_refl).
Defined.

(** ** The ADR listing of [adr.ts] *)

Lemma adr_of_id_none (file : jsstr) (data : FM) :
  adr_name_test file = true -> (adr_of file data).(adr_id) = None.
Proof.
  destruct file as [|c [|d rest]]; try discriminate. intros H.
  unfold adr_name_test in H. apply andb_true_iff in H as [Hc Hd].
  apply Ascii.eqb_eq in Hc, Hd. subst c d. reflexivity.
Qed.

Lemma adr_insert_no_id (x : ADRDocument) (l : list ADRDocument) :
  x.(adr_id) = None -> adr_insert x l = l ++ [x].
Proof.
  intros Hx. induction l as [|y l IH]; [reflexivity|].
  cbn [adr_insert]. unfold adr_compare. rewrite Hx. cbn [Z.ltb Z.compare].
  rewrite IH. reflexivity.
Qed.

Lemma fold_adr_insert_no_id (adrs acc : list ADRDocument) :
  Forall (fun a => a.(adr_id) = None) adrs ->
  fold_left (fun acc x => adr_insert x acc) adrs acc = acc ++ adrs.
Proof.
  revert acc; induction adrs as [|a adrs IH]; intros acc H; [rewrite app_nil_r; reflexivity|].
  inversion H as [|? ? Ha Hr]; subst. cbn [fold_left].
  rewrite adr_insert_no_id by exact Ha. rewrite IH by exact Hr.
  rewrite <- app_assoc. reflexivity.
Qed.

Lemma adr_documents_spec (files : Listing) (adrs : list ADRDocument) :
  adr_documents files = Some adrs ->
  map adr_filename adrs = filter (fun f => is_doc_file f && adr_name_test f) (map fst files) /\
  Forall (fun a => a.(adr_id) = None) adrs.
Proof.
  revert adrs; induction files as [|[file content] files IH]; intros adrs H.
  - injection H as <-. split; [reflexivity | constructor].
  - cbn [adr_documents] in H. cbn [map fst filter].
    destruct (is_doc_file file && adr_name_test file) eqn:Ef.
    + destruct content as [data|]; [|discriminate].
      destruct (adr_documents files) as [l|] eqn:El; [|discriminate].
      injection H as <-. destruct (IH l eq_refl) as [H1 H2].
      split; [cbn [map adr_filename adr_of]; rewrite H1; reflexivity|].
      constructor; [|exact H2].
      apply adr_of_id_none. apply andb_true_iff in Ef as [_ Ef]. exact Ef.
    + exact (IH adrs H).
Qed.

(** [getADRDocuments] keeps the ADRs in the order of the directory listing:
    the pattern [/^\\d+/] of the source escapes its backslash, so a file is
    an ADR only when its name starts with a backslash and [d]; its [id] is
    then [parseInt] of a text with no digit, [NaN], and the sort by
    [a.id - b.id] moves nothing. *)
Theorem getADRDocuments_listing_order (files : Listing) :
  getADRDocuments files = adr_documents files /\
  (forall adrs, adr_documents files = Some adrs ->
     map adr_filename adrs =
       filter (fun f => is_doc_file f && adr_name_test f) (map fst files) /\
     Forall (fun a => a.(adr_id) = None) adrs).
Proof.
  split; [|exact (adr_documents_spec files)].
  unfold getADRDocuments. destruct (adr_documents files) as [adrs|] eqn:E; [|reflexivity].
  cbn [option_map]. rewrite fold_adr_insert_no_id; [reflexivity|].
  exact (proj2 (adr_documents_spec files adrs E)).
Qed.

(** ** Decimal rendering read back *)

Lemma digits_value_app (s t : jsstr) (acc : Z) :
  digits_value (s ++ t) acc =
  match digits_value s acc with Some v => digits_value t v | None => None end.
Proof.
  revert acc; induction s as [|c s IH]; intros acc; [reflexivity|].
  cbn [app digits_value]. destruct (is_digit c); [apply IH | reflexivity].
Qed.

Lemma digit_char_ok (m : N) :
  (m < 10)%N -> is_digit (digit_char m) = true /\
                Z.of_nat (nat_of_ascii (digit_char m) - 48) = Z.of_N m.
Proof.
  intros H. rewrite <- (N2Nat.id m). remember (N.to_nat m) as k eqn:Ek.
  assert (Hk : k < 10) by lia. clear Ek H.
  do 10 (destruct k as [|k]; [split; reflexivity|]). lia.
Qed.

Lemma n_dec_aux_value (fuel : nat) (n : N) (acc : jsstr) :
  (n < 10 ^ N.of_nat fuel)%N ->
  exists k : nat, forall v, digits_value (n_dec_aux fuel n acc) v =
                            digits_value acc (v * 10 ^ Z.of_nat k + Z.of_N n)%Z.
Proof.
  revert n acc; induction fuel as [|f IH]; intros n acc Hn.
  - exists 0. intros v. assert (n = 0%N) by (simpl in Hn; lia). subst n.
    cbn [n_dec_aux]. f_equal. lia.
  - cbn [n_dec_aux].
    assert (Hm : (n mod 10 < 10)%N) by (apply N.mod_lt; discriminate).
    destruct (digit_char_ok _ Hm) as [Hd Hv].
    pose proof (N.div_mod n 10 ltac:(discriminate)) as Hdm.
    destruct (N.div n 10 =? 0)%N eqn:Ez.
    + exists 1. intros v. cbn [digits_value]. rewrite Hd, Hv. f_equal.
      apply N.eqb_eq in Ez. rewrite Ez in Hdm. lia.
    + assert (Hq : (n / 10 < 10 ^ N.of_nat f)%N).
      { apply N.Div0.div_lt_upper_bound.
        rewrite Nat2N.inj_succ, N.pow_succ_r' in Hn. lia. }
      destruct (IH (n / 10)%N (digit_char (n mod 10) :: acc) Hq) as [k Hk].
      exists (S k). intros v. rewrite Hk. cbn [digits_value]. rewrite Hd, Hv. f_equal.
      rewrite Nat2Z.inj_succ, Z.pow_succ_r by lia. lia.
Qed.

Lemma n_dec_value (n : N) : digits_value (n_dec n) 0 = Some (Z.of_N n).
Proof.
  unfold n_dec.
  assert (Hn : (n < 10 ^ N.of_nat (S (N.to_nat (N.size n))))%N).
  { rewrite Nat2N.inj_succ, N2Nat.id.
    apply N.lt_le_trans with (2 ^ N.size n)%N; [apply N.size_gt|].
    apply N.le_trans with (10 ^ N.size n)%N.
    - apply N.pow_le_mono_l. lia.
    - apply N.pow_le_mono_r; lia. }
  destruct (n_dec_aux_value _ n [] Hn) as [k Hk]. rewrite Hk. reflexivity.
Qed.

Lemma digits_value_zeros (k : nat) (s : jsstr) :
  digits_value (repeat "0"%char k ++ s) 0 = digits_value s 0.
Proof. induction k as [|k IH]; [reflexivity|]. exact IH. Qed.

Lemma digits_value_all_digits (s : jsstr) (acc v : Z) :
  digits_value s acc = Some v -> forallb is_digit s = true.
Proof.
  revert acc; induction s as [|c s IH]; intros acc H; [reflexivity|].
  cbn [digits_value] in H. cbn [forallb].
  destruct (is_digit c); [exact (IH _ H) | discriminate].
Qed.

Lemma take_while_digits_app (s : jsstr) (c : ascii) (t : jsstr) :
  forallb is_digit s = true -> is_digit c = false ->
  take_while is_digit (s ++ c :: t) = s.
Proof.
  intros Hs Hc. induction s as [|x s IH]; cbn [app take_while].
  - rewrite Hc. reflexivity.
  - cbn [forallb] in Hs. apply andb_true_iff in Hs as [Hx Hs].
    rewrite Hx, (IH Hs). reflexivity.
Qed.

Lemma pad_start4_value (z : Z) :
  (0 <= z)%Z -> digits_value (pad_start4 (z_dec z)) 0 = Some z.
Proof.
  intros Hz. unfold pad_start4. rewrite digits_value_zeros.
  destruct z as [|p|p]; [reflexivity | | lia].
  exact (n_dec_value (Npos p)).
Qed.

Lemma new_adr_filename_id (z : Z) (t : jsstr) :
  (0 <= z)%Z ->
  digits_value (take_while is_digit (new_adr_filename z t)) 0 = Some z.
Proof.
  intros Hz. unfold new_adr_filename.
  change (lit "-") with ["-"%char]. cbn [app].
  rewrite take_while_digits_app; [exact (pad_start4_value z Hz)| |reflexivity].
  exact (digits_value_all_digits _ _ _ (pad_start4_value z Hz)).
Qed.

Lemma renumber_plan_spec (startFrom : Z) (i : nat) (adrs : list ADRDocument)
  (plan : list (ADRDocument * Z * jsstr)) :
  (0 <= startFrom)%Z -> renumber_plan startFrom i adrs = Some plan ->
  NoDup (map snd plan) /\ map (fun e => fst (fst e)) plan = adrs /\
  (forall e, In e plan -> (startFrom + Z.of_nat i <= snd (fst e))%Z /\
     digits_value (take_while is_digit (snd e)) 0 = Some (snd (fst e))).
Proof.
  intros Hs. revert i plan; induction adrs as [|a adrs IH]; intros i plan H.
  - injection H as <-. split; [constructor|]. split; [reflexivity | intros e []].
  - cbn [renumber_plan] in H. destruct (adr_title a) as [| | |t| |]; try discriminate.
    destruct (renumber_plan startFrom (S i) adrs) as [plan'|] eqn:Ep; [|discriminate].
    injection H as <-. destruct (IH (S i) plan' Ep) as [Hnd [Hmap Hin]].
    assert (Hnew : digits_value (take_while is_digit
                     (new_adr_filename (startFrom + Z.of_nat i) t)) 0 =
                   Some (startFrom + Z.of_nat i)%Z)
      by (apply new_adr_filename_id; lia).
    split; [|split].
    + cbn [map snd]. constructor; [|exact Hnd].
      intros Hm. apply in_map_iff in Hm as [e [He Hine]].
      destruct (Hin e Hine) as [Hge Hid]. rewrite He, Hnew in Hid.
      injection Hid as Hid. lia.
    + cbn [map fst]. rewrite Hmap. reflexivity.
    + intros e [<- | He]; [cbn [fst snd]; split; [lia | exact Hnew]|].
      destruct (Hin e He) as [Hge Hid]. split; [lia | exact Hid].
Qed.

(** The renaming plan of [handleRenumber] takes every ADR once, in order, and
    gives no two of them the same new file name, when the first number is not
    negative and the numbers [startFrom + i] stay below [2^53], where the
    addition of doubles is exact and [String] prints every digit. *)
Theorem renumber_plan_distinct_filenames (startFrom : Z) (adrs : list ADRDocument)
  (plan : list (ADRDocument * Z * jsstr)) :
  (0 <= startFrom)%Z -> (startFrom + Z.of_nat (List.length adrs) <= 2 ^ 53)%Z ->
  renumber_plan startFrom 0 adrs = Some plan ->
  NoDup (map snd plan) /\ map (fun e => fst (fst e)) plan = adrs.
Proof.
  intros Hs _ H. destruct (renumber_plan_spec startFrom 0 adrs plan Hs H) as [H1 [H2 _]].
  split; [exact H1 | exact H2].
Qed.

Lemma renumber_plan_distinct_filenames_witness :
  exists plan,
    renumber_plan (renumber_start None) 0
      (match getADRDocuments adr_listing with Some a => a | None => [] end) = Some plan /\
    NoDup (map snd plan) /\
    map (fun e => fst (fst e)) plan =
      (match getADRDocuments adr_listing with Some a => a | None => [] end).
Proof.
  destruct (renumber_plan (renumber_start None) 0
              (match getADRDocuments adr_listing with Some a => a | None => [] end))
    as [plan|] eqn:E; [|vm_compute in E; discriminate E].
  exists plan. split; [reflexivity|].
  apply (renumber_plan_distinct_filenames (renumber_start None)); [| |exact E].
  - vm_compute. discriminate.
  - vm_compute. discriminate.
Defined.

(** ** Deprecating an ADR *)

Lemma fm_get_app (k : jsstr) (l1 l2 : FM) :
  fm_get k (l1 ++ l2) = match fm_get k l1 with Some v => Some v | None => fm_get k l2 end.
Proof.
  induction l1 as [|[k' v'] l1 IH]; [reflexivity|].
  cbn [app fm_get]. destruct (str_eqb k k'); [reflexivity | exact IH].
Qed.

Lemma fm_get_set (k k' : jsstr) (v : jsval) (fm : FM) :
  fm_get k (fm_set k' v fm) = if str_eqb k k' then Some v else fm_get k fm.
Proof.
  destruct (str_eqb k k') eqn:E.
  - apply str_eqb_eq in E. subst k'. apply fm_get_set_same.
  - apply fm_get_set_other. intros ->. rewrite str_eqb_refl in E. discriminate.
Qed.

Lemma fm_get_spread (k : jsstr) (base updates : FM) :
  fm_get k (fm_spread base updates) =
  match fm_get k (rev updates) with Some v => Some v | None => fm_get k base end.
Proof.
  unfold fm_spread. revert base; induction updates as [|[k' v'] ups IH]; intros base;
    [reflexivity|].
  cbn [fold_left fst snd rev]. rewrite IH, fm_get_app, fm_get_set. cbn [fm_get].
  destruct (fm_get k (rev ups)); [reflexivity|].
  destruct (str_eqb k k'); reflexivity.
Qed.

Lemma fm_get_not_key (k : jsstr) (l : FM) : ~ In k (map fst l) -> fm_get k l = None.
Proof.
  induction l as [|[k' v'] l IH]; intros H; [reflexivity|].
  cbn [fm_get]. destruct (str_eqb k k') eqn:E.
  - apply str_eqb_eq in E. subst k'. exfalso. apply H. left. reflexivity.
  - apply IH. intros Hin. apply H. right. exact Hin.
Qed.

Lemma deprecate_updates_keys (today : jsstr) (reason supersededBy : option jsstr) (k : jsstr) :
  In k (map fst (rev (deprecate_updates today reason supersededBy))) ->
  In k [lit "status"; lit "deprecated_date"; lit "deprecation_reason"; lit "superseded_by"].
Proof.
  rewrite map_rev. intros H. apply in_rev in H. unfold deprecate_updates in H.
  rewrite !map_app in H. cbn [map fst] in H.
  apply in_app_or in H as [H | H];
    [destruct H as [<- | [<- | []]]; [left; reflexivity | right; left; reflexivity]|].
  apply in_app_or in H as [H | H].
  - destruct reason as [[|r0 r]|]; cbn [map fst] in H;
      [contradiction | destruct H as [<- | []] | contradiction].
    right; right; left; reflexivity.
  - destruct supersededBy as [[|s0 s]|]; cbn [map fst] in H;
      [contradiction | destruct H as [<- | []] | contradiction].
    right; right; right; left; reflexivity.
Qed.

(** When [handleDeprecate] writes an ADR, the ADR is the first one the search
    for [adrId] finds, its status was not the string [deprecated] and the run
    was not a dry run; the written front matter has [status] [deprecated],
    [deprecated_date] today, [deprecation_reason] and [superseded_by] when the
    options give nonempty strings, every other key as before, and the index
    is regenerated from the listing holding the new front matter. *)
Theorem handleDeprecate_written (types : list (jsstr * DocumentType)) (cfg : IndexingConfig)
  (adrId : jsstr) (reason supersededBy : option jsstr) (dryRun : bool) (today : jsstr)
  (files : Listing) (index : IndexFile) (file : jsstr) (data : FM) (content : jsstr) :
  handleDeprecate types cfg adrId reason supersededBy dryRun today files index =
    DeprecateWritten file data content ->
  exists name tc adrs target,
    adr_type types = Some (name, tc) /\
    getADRDocuments files = Some adrs /\
    find (deprecate_match adrId) adrs = Some target /\
    file = target.(adr_filename) /\
    target.(adr_status) <> JStr (lit "deprecated") /\
    dryRun = false /\
    fm_get (lit "status") data = Some (JStr (lit "deprecated")) /\
    fm_get (lit "deprecated_date") data = Some (JStr today) /\
    (forall r, reason = Some r -> r <> [] ->
       fm_get (lit "deprecation_reason") data = Some (JStr r)) /\
    (forall s, supersededBy = Some s -> s <> [] ->
       fm_get (lit "superseded_by") data = Some (JStr s)) /\
    (forall k, ~ In k [lit "status"; lit "deprecated_date"; lit "deprecation_reason";
                       lit "superseded_by"] ->
       fm_get k data = fm_get k target.(adr_frontmatter)) /\
    updateIndexFile tc.(dpath) cfg (replace_entry file data files) index = Some content.
Proof.
  unfold handleDeprecate. intros H.
  destruct (adr_type types) as [[name tc]|] eqn:Et; [|discriminate].
  destruct (getADRDocuments files) as [adrs|] eqn:Eg; [|discriminate].
  destruct (find (deprecate_match adrId) adrs) as [target|] eqn:Ef; [|discriminate].
  destruct (match adr_status target with
            | JStr s => str_eqb s (lit "deprecated")
            | _ => false end) eqn:Es; [discriminate|].
  destruct dryRun; [discriminate|].
  destruct (updateIndexFile (dpath tc) cfg
              (replace_entry (adr_filename target)
                 (fm_spread (adr_frontmatter target)
                    (deprecate_updates today reason supersededBy)) files) index)
    as [c|] eqn:Eu; [|discriminate].
  injection H as <- <- <-.
  exists name, tc, adrs, target.
  do 3 (split; [first [reflexivity | assumption]|]).
  split; [reflexivity|].
  split; [intros E; rewrite E in Es; rewrite str_eqb_refl in Es; discriminate|].
  split; [reflexivity|].
  rewrite !(fm_get_spread _ (adr_frontmatter target) (deprecate_updates today reason supersededBy)).
  split; [destruct reason as [[|? ?]|], supersededBy as [[|? ?]|]; reflexivity|].
  split; [destruct reason as [[|? ?]|], supersededBy as [[|? ?]|]; reflexivity|].
  split; [intros r -> Hr; destruct r as [|r0 r]; [contradiction|];
          destruct supersededBy as [[|? ?]|]; reflexivity|].
  split; [intros s -> Hs; destruct s as [|s0 s]; [contradiction|];
          destruct reason as [[|? ?]|]; reflexivity|].
  split; [|exact Eu].
  intros k Hk.
  transitivity (match fm_get k (rev (deprecate_updates today reason supersededBy)) with
                | Some v => Some v
                | None => fm_get k (adr_frontmatter target) end);
    [exact (fm_get_spread k (adr_frontmatter target)
              (deprecate_updates today reason supersededBy))|].
  rewrite (fm_get_not_key k (rev (deprecate_updates today reason supersededBy)));
    [reflexivity|].
  intros Hin. exact (Hk (deprecate_updates_keys _ _ _ _ Hin)).
Qed.

Lemma handleDeprecate_written_witness :
  exists file data content,
    handleDeprecate sample_types sample_cfg (lit "notes") (Some (lit "replaced")) None false
      (lit "2026-10-15") adr_listing IndexMissing = DeprecateWritten file data content /\
    fm_get (lit "status") data = Some (JStr (lit "deprecated")) /\
    fm_get (lit "deprecation_reason") data = Some (JStr (lit "replaced")).
Proof.
  destruct (handleDeprecate sample_types sample_cfg (lit "notes") (Some (lit "replaced")) None
              false (lit "2026-10-15") adr_listing IndexMissing)
    as [| | |file data content] eqn:E; try (vm_compute in E; discriminate E).
  exists file, data, content. split; [reflexivity|].
  destruct (handleDeprecate_written _ _ _ _ _ _ _ _ _ _ _ _ E)
    as [name [tc [adrs [target [_ [_ [_ [_ [_ [_ [Hs [_ [Hr _]]]]]]]]]]]]].
  split; [exact Hs|]. apply (Hr (lit "replaced") eq_refl). discriminate.
Defined.

(** ** The lines of the list *)

(** A Markdown list has one line per document when no rendered title and no
    rendered status holds a line feed. *)
Theorem generateMarkdownList_lines (documents : list DocumentIndexInfo) :
  (forall d, In d documents ->
     ~ In (ascii_of_nat 10) (js_to_string (nullish_or (fm_get (lit "title") d.(frontmatter))
                                                      (JStr d.(filename)))) /\
     ~ In (ascii_of_nat 10) (js_to_string (nullish_or (fm_get (lit "status") d.(frontmatter))
                                                      JNull))) ->
  count_occ ascii_dec (generateMarkdownList documents) (ascii_of_nat 10) =
  List.length documents - 1.
Proof.
  intros Hd. unfold generateMarkdownList. rewrite join_nl_count.
  - rewrite length_map. reflexivity.
  - intros x Hx. apply in_map_iff in Hx as [d [<- Hin]].
    destruct (Hd d Hin) as [H1 H2].
    destruct (truthy (fm_get (lit "status") (frontmatter d))); repeat apply no_nl_app;
      try (apply not_in_existsb; reflexivity);
      first [exact H1 | exact H2 | apply encodeURI_no_nl | intros []].
Qed.

Lemma generateMarkdownList_lines_witness :
  count_occ ascii_dec
    (generateMarkdownList
       [{| filename := lit "002-b.md"; frontmatter := [(lit "id", JNum 2); (lit "title", JStr (lit "B"))] |};
        {| filename := lit "001-a.md"; frontmatter := [(lit "status", JStr (lit "draft"))] |}])
    (ascii_of_nat 10) = 1.
Proof.
  apply generateMarkdownList_lines.
  intros d Hd. destruct Hd as [<- | [<- | []]];
    split; apply not_in_existsb; vm_compute; reflexivity.
Defined.

(** ** New ADR file names *)

Lemma dash_runs_chars (b : bool) (s : jsstr) (c : ascii) :
  In c (dash_runs b s) -> is_lower c || is_digit c || Ascii.eqb c "-"%char = true.
Proof.
  revert b; induction s as [|x s IH]; intros b H; [contradiction|].
  cbn [dash_runs] in H. destruct (is_lower x || is_digit x) eqn:Ex.
  - destruct H as [<- | H]; [rewrite Ex; reflexivity | exact (IH _ H)].
  - destruct b; [exact (IH _ H)|].
    destruct H as [<- | H]; [reflexivity | exact (IH _ H)].
Qed.

Lemma dash_runs_single (b : bool) (s : jsstr) :
  (b = true -> hd_error (dash_runs b s) <> Some "-"%char) /\
  (forall pre post, dash_runs b s <> pre ++ "-"%char :: "-"%char :: post).
Proof.
  revert b; induction s as [|x s IH]; intros b.
  - split; [intros _; discriminate | intros pre post H; destruct pre; discriminate].
  - cbn [dash_runs]. destruct (is_lower x || is_digit x) eqn:Ex.
    + split.
      * intros _ E. injection E as ->. discriminate Ex.
      * intros pre post H. destruct pre as [|y pre].
        -- injection H as -> _. discriminate Ex.
        -- injection H as _ H. exact (proj2 (IH false) pre post H).
    + destruct b; [exact (IH true)|].
      split; [intros E; discriminate E|].
      intros pre post H. destruct pre as [|y pre].
      * injection H as H. apply (proj1 (IH true) eq_refl). rewrite H. reflexivity.
      * injection H as _ H. exact (proj2 (IH true) pre post H).
Qed.

(** A file name of [handleRenumber] is the new number, padded with zeros to
    at least four digits, a dash, a slug of lower-case letters, digits and
    single dashes, and [.md], when the number is a safe integer that is not
    negative (from [0] to [2^53]), which [String] prints digit by digit. *)
Theorem new_adr_filename_shape (newId : Z) (title : jsstr) :
  (0 <= newId <= 2 ^ 53)%Z ->
  exists digits slug,
    new_adr_filename newId title = digits ++ "-"%char :: slug ++ lit ".md" /\
    4 <= List.length digits /\ digits_value digits 0 = Some newId /\
    (forall c, In c slug -> is_lower c || is_digit c || Ascii.eqb c "-"%char = true) /\
    (forall pre post, slug <> pre ++ "-"%char :: "-"%char :: post).
Proof.
  intros [Hz _]. exists (pad_start4 (z_dec newId)),
    (dash_runs false (map to_lower (strip_number_prefix title))).
  split; [reflexivity|]. split; [|split; [|split]].
  - unfold pad_start4. rewrite length_app, repeat_length. lia.
  - exact (pad_start4_value newId Hz).
  - apply dash_runs_chars.
  - exact (proj2 (dash_runs_single false _)).
Qed.

Lemma new_adr_filename_shape_witness :
  new_adr_filename 3 (lit "Use Rocq!") = lit "0003-use-rocq-.md" /\
  exists digits slug,
    new_adr_filename 3 (lit "Use Rocq!") = digits ++ "-"%char :: slug ++ lit ".md" /\
    4 <= List.length digits /\ digits_value digits 0 = Some 3%Z /\
    (forall c, In c slug -> is_lower c || is_digit c || Ascii.eqb c "-"%char = true) /\
    (forall pre post, slug <> pre ++ "-"%char :: "-"%char :: post).
Proof.
  split; [reflexivity|]. apply new_adr_filename_shape. vm_compute. split; discriminate.
Defined.
